(** * object_detection_demo_ssd_async: the asynchronous request scheduler

    A shallow embedding of the inference loop of
    [demos/object_detection_demo_ssd_async/main.cpp] (section "7. Do
    inference" and section "9. Wait for running Infer Requests"),
    followed by the parts of its [main] that prepare the loop (plugin
    configuration, labels, output shape) and draw the detections, and by
    the command line and the colour table of
    [demos/segmentation_demo/cpp/main.cpp].

    The control thread is modelled by a program counter over the blocks
    of the [while (true)] loop; a block of the control thread that runs
    under [mutex] is one atomic step.  The Inference Engine runtime is
    the environment: it fires the completion callback of a started
    request at an arbitrary later moment.  The callback holds [mutex]
    from its first line to its last, but the control thread writes
    [isUserSpecifiedMode] (line 426) and [emptyRequests] (lines 435-436)
    without it, so the callback is cut into one step for each of its
    accesses to these two variables: the read at line 490, the read at
    line 493 and the [push_back] at line 494.  A run is a list of
    events, each one step of the control thread or of a callback. *)

From Stdlib Require Import ZArith NArith List Bool Lia String Ascii.
From stdpp Require Import base decidable countable list gmap fin_maps fin_sets
  strings pretty.

Local Open Scope Z_scope.

(** ** Data model *)

(** Infer requests.  [userSpecifiedInferRequests] holds [FLAGS_nireq]
    requests, [minLatencyInferRequest] is a single one. *)
Inductive Slot : Type :=
| UserReq (i : nat)
| MinLatencyReq.

#[global] Instance Slot_eq_dec : EqDecision Slot.
Proof. solve_decision. Defined.

Definition Slot_to_option (x : Slot) : option nat :=
  match x with UserReq i => Some i | MinLatencyReq => None end.

Definition Slot_of_option (o : option nat) : Slot :=
  match o with Some i => UserReq i | None => MinLatencyReq end.

#[global] Instance Slot_countable : Countable Slot.
Proof.
  apply (inj_countable' Slot_to_option Slot_of_option).
  intros []; reflexivity.
Defined.

(** Command-line flags read by the loop. *)
Record Config : Type := {
  FLAGS_nireq : nat;
  FLAGS_no_show : bool;
  FLAGS_loop_input : bool
}.

(** [struct RequestResult].  The [output] pointer is non-null exactly
    when the result was taken out of the map, so a found result is
    [Some r] and the default-constructed one is [None]. *)
Record RequestResult : Type := {
  frame : nat;
  requestStartTime : nat;
  isSameMode : bool
}.

(** What the completion callback captures by value at submission. *)
Record Callback : Type := {
  cbFrameId : Z;
  cbFrame : nat;
  cbStartTime : nat;
  cbFrameMode : bool
}.

(** Result extraction inside the callback either succeeds or throws. *)
Inductive Outcome : Type :=
| Extracted
| Throws (e : nat).

Inductive Exn : Type :=
| CallbackFailure (e : nat)   (* std::rethrow_exception(callbackException) *)
| FrameReadError.             (* std::logic_error("Failed to get frame ...") *)

Inductive ExitReason : Type :=
| Exhausted    (* break at the top of the loop *)
| UserQuit.    (* Esc, q or Q *)

(** Calls made on [modeMetrics[mode]], in program order. *)
Inductive MetricCall : Type :=
| Recalculate (mode : bool) (startTime : nat)
| Stop (mode : bool)
| Reinitialize (mode : bool).

(** Where a callback that holds the mutex stands once its result is
    stored. *)
Inductive CallbackPc : Type :=
| AtTest     (* about to read isUserSpecifiedMode at line 493 *)
| AtPush.    (* the test has passed: about to push_back at line 494 *)

(** Where the control thread stands. *)
Inductive Pc : Type :=
| LoopTop                          (* about to test callbackException *)
| Locked                           (* about to take the mutex: break test and find *)
| Body (r : option RequestResult)  (* past the locked block, requestResult in hand *)
| SwitchWait                       (* Tab: flag flipped, inside request->Wait *)
| Exited (why : ExitReason)        (* left the loop, inside the final Wait *)
| Finished (why : ExitReason)      (* return 0 *)
| Thrown (e : Exn).                (* caught by the outer handler, return 1 *)

Record State : Type := {
  pc : Pc;
  isUserSpecifiedMode : bool;
  emptyRequests : list Slot;
  completedRequestResults : gmap Z RequestResult;
  nextFrameId : Z;
  nextFrameIdToShow : Z;
  callbackException : option nat;
  capOpened : bool;
  (* runtime side: requests started whose callback has not run yet *)
  inflight : gmap Slot Callback;
  (* the callback that holds [callbackLock], and where it stands *)
  callbackLock : option (Slot * CallbackPc);
  (* observations *)
  shown : list (Z * RequestResult);
  metricCalls : list MetricCall
}.

(** What the environment hands to one step of the control thread. *)
Inductive ReadResult : Type :=
| ReadFrame (f : nat)   (* cap.read succeeded *)
| ReadNothing           (* cap.read failed, frame.empty() *)
| ReadBroken.           (* cap.read failed, frame not empty *)

Record Input : Type := {
  key : Z;               (* cv::waitKey(1) *)
  grabbed : ReadResult;  (* cap.read(frame) *)
  now : nat;             (* steady_clock::now() *)
  reopened : bool        (* cap.isOpened() after cap.open under -loop_input *)
}.

(** [Completion x o]: the callback of the running request [x] takes the
    mutex and runs lines 483-491, or the handler of lines 497-501 when
    the extraction throws.  [Proceed]: the callback that holds the mutex
    runs its next statement. *)
Inductive Event : Type :=
| Main (i : Input)
| Completion (x : Slot) (o : Outcome)
| Proceed.

Definition INT_MAX : Z := 2147483647.

(** ** Field updates *)

Definition set_pc (p : Pc) (s : State) : State :=
  {| pc := p;
     isUserSpecifiedMode := isUserSpecifiedMode s;
     emptyRequests := emptyRequests s;
     completedRequestResults := completedRequestResults s;
     nextFrameId := nextFrameId s;
     nextFrameIdToShow := nextFrameIdToShow s;
     callbackException := callbackException s;
     capOpened := capOpened s;
     inflight := inflight s;
     callbackLock := callbackLock s;
     shown := shown s;
     metricCalls := metricCalls s |}.

Definition log_metric (m : MetricCall) (s : State) : State :=
  {| pc := pc s;
     isUserSpecifiedMode := isUserSpecifiedMode s;
     emptyRequests := emptyRequests s;
     completedRequestResults := completedRequestResults s;
     nextFrameId := nextFrameId s;
     nextFrameIdToShow := nextFrameIdToShow s;
     callbackException := callbackException s;
     capOpened := capOpened s;
     inflight := inflight s;
     callbackLock := callbackLock s;
     shown := shown s;
     metricCalls := metricCalls s ++ [m] |}.

Definition set_emptyRequests (l : list Slot) (s : State) : State :=
  {| pc := pc s;
     isUserSpecifiedMode := isUserSpecifiedMode s;
     emptyRequests := l;
     completedRequestResults := completedRequestResults s;
     nextFrameId := nextFrameId s;
     nextFrameIdToShow := nextFrameIdToShow s;
     callbackException := callbackException s;
     capOpened := capOpened s;
     inflight := inflight s;
     callbackLock := callbackLock s;
     shown := shown s;
     metricCalls := metricCalls s |}.

Definition set_capOpened (b : bool) (s : State) : State :=
  {| pc := pc s;
     isUserSpecifiedMode := isUserSpecifiedMode s;
     emptyRequests := emptyRequests s;
     completedRequestResults := completedRequestResults s;
     nextFrameId := nextFrameId s;
     nextFrameIdToShow := nextFrameIdToShow s;
     callbackException := callbackException s;
     capOpened := b;
     inflight := inflight s;
     callbackLock := callbackLock s;
     shown := shown s;
     metricCalls := metricCalls s |}.

(** ** The request pools *)

Definition userSpecifiedInferRequests (c : Config) : list Slot :=
  UserReq <$> seq 0 (FLAGS_nireq c).

(** The pool selected by [if (isUserSpecifiedMode) ... else ...]. *)
Definition modeRequests (c : Config) (mode : bool) : list Slot :=
  if mode then userSpecifiedInferRequests c else [MinLatencyReq].

(** [request->Wait(RESULT_READY)] over a pool returns once none of its
    requests is running; a request counts as running from [StartAsync]
    until its completion callback has returned.  What a callback does
    after its last access to the shared variables (it releases the
    mutex, notifies [condVar] and returns) belongs to the step of that
    access. *)
Definition requests_ready (l : list Slot) (s : State) : bool :=
  forallb (fun x => bool_decide (inflight s !! x = None)) l.

(** ** Initial state: section "6. Init variables" *)

Definition init (c : Config) : State :=
  {| pc := LoopTop;
     isUserSpecifiedMode := true;
     emptyRequests := userSpecifiedInferRequests c;
     completedRequestResults := ∅;
     nextFrameId := 0;
     nextFrameIdToShow := 0;
     callbackException := None;
     capOpened := true;
     inflight := ∅;
     callbackLock := None;
     shown := [];
     metricCalls := [] |}.

(** ** The control thread *)

(** Lines 345-358: the block under [lock_guard]. *)
Definition break_condition (c : Config) (s : State) : bool :=
  negb (capOpened s)
  && bool_decide (completedRequestResults s = ∅)
  && ((isUserSpecifiedMode s && (length (emptyRequests s) =? FLAGS_nireq c)%nat)
      || (negb (isUserSpecifiedMode s) && (length (emptyRequests s) =? 1)%nat)).

Definition locked_block (c : Config) (s : State) : State :=
  if break_condition c s then
    (* break; then modeMetrics[isUserSpecifiedMode].stop() at line 516 *)
    set_pc (Exited Exhausted) (log_metric (Stop (isUserSpecifiedMode s)) s)
  else
    match completedRequestResults s !! nextFrameIdToShow s with
    | Some r =>
        {| pc := Body (Some r);
           isUserSpecifiedMode := isUserSpecifiedMode s;
           emptyRequests := emptyRequests s;
           completedRequestResults := delete (nextFrameIdToShow s) (completedRequestResults s);
           nextFrameId := nextFrameId s;
           nextFrameIdToShow := nextFrameIdToShow s;
           callbackException := callbackException s;
           capOpened := capOpened s;
           inflight := inflight s;
           callbackLock := callbackLock s;
           shown := shown s;
           metricCalls := metricCalls s |}
    | None => set_pc (Body None) s
    end.

(** Lines 360-416: [nextFrameIdToShow++], metrics, drawing. *)
Definition show_result (r : RequestResult) (s : State) : State :=
  {| pc := pc s;
     isUserSpecifiedMode := isUserSpecifiedMode s;
     emptyRequests := emptyRequests s;
     completedRequestResults := completedRequestResults s;
     nextFrameId := nextFrameId s;
     nextFrameIdToShow := nextFrameIdToShow s + 1;
     callbackException := callbackException s;
     capOpened := capOpened s;
     inflight := inflight s;
     callbackLock := callbackLock s;
     shown := shown s ++ [(nextFrameIdToShow s, r)];
     metricCalls :=
       if isSameMode r
       then metricCalls s ++ [Recalculate (isUserSpecifiedMode s) (requestStartTime r)]
       else metricCalls s |}.

Definition is_quit_key (k : Z) : bool :=
  (k =? 27) || (k =? 113) || (k =? 81).

Definition is_tab_key (k : Z) : bool := k =? 9.

(** Lines 425-426: stop the metrics of the old mode and flip the flag. *)
Definition flip_mode (s : State) : State :=
  {| pc := SwitchWait;
     isUserSpecifiedMode := negb (isUserSpecifiedMode s);
     emptyRequests := emptyRequests s;
     completedRequestResults := completedRequestResults s;
     nextFrameId := nextFrameId s;
     nextFrameIdToShow := nextFrameIdToShow s;
     callbackException := callbackException s;
     capOpened := capOpened s;
     inflight := inflight s;
     callbackLock := callbackLock s;
     shown := shown s;
     metricCalls := metricCalls s ++ [Stop (isUserSpecifiedMode s)] |}.

(** Lines 417-442: the key handling after a result was drawn. *)
Definition handle_key (c : Config) (k : Z) (s : State) : State :=
  if FLAGS_no_show c then set_pc LoopTop s
  else if is_quit_key k then
    set_pc (Exited UserQuit) (log_metric (Stop (isUserSpecifiedMode s)) s)
  else if is_tab_key k then flip_mode s
  else set_pc LoopTop s.

(** Lines 428-438, once the Wait calls have returned. *)
Definition finish_switch (c : Config) (s : State) : State :=
  set_pc LoopTop
    (log_metric (Reinitialize (isUserSpecifiedMode s))
       (set_emptyRequests (modeRequests c (isUserSpecifiedMode s)) s)).

(** Lines 458-507: take the front request, wire the callback, start it. *)
Definition start_request (f t : nat) (x : Slot) (rest : list Slot) (s : State) : State :=
  {| pc := LoopTop;
     isUserSpecifiedMode := isUserSpecifiedMode s;
     emptyRequests := rest;
     completedRequestResults := completedRequestResults s;
     nextFrameId := nextFrameId s + 1;
     nextFrameIdToShow := nextFrameIdToShow s;
     callbackException := callbackException s;
     capOpened := capOpened s;
     inflight :=
       <[x := {| cbFrameId := nextFrameId s; cbFrame := f;
                 cbStartTime := t; cbFrameMode := isUserSpecifiedMode s |}]> (inflight s);
     callbackLock := callbackLock s;
     shown := shown s;
     metricCalls := metricCalls s |}.

(** The condition of the [condVar.wait] loop at line 511. *)
Definition must_wait (s : State) : bool :=
  bool_decide (callbackException s = None)
  && bool_decide (emptyRequests s = [])
  && bool_decide (completedRequestResults s = ∅).

(** Lines 443-514: no result to show.  The request is taken from the
    deque under the mutex (lines 459-464), so a frame is submitted only
    while no callback holds it.  The wait of lines 509-513 changes
    nothing; while a callback holds the mutex its result is stored and
    the condition of line 511 is false, so that branch is not held back.
    [nextFrameId++] on [INT_MAX] is undefined behaviour, so the model
    has no step there. *)
Definition no_result (c : Config) (i : Input) (s : State) : option State :=
  match emptyRequests s with
  | x :: rest =>
      if capOpened s then
        match grabbed i with
        | ReadFrame f =>
            match callbackLock s with
            | Some _ => None
            | None =>
                if bool_decide (nextFrameId s < INT_MAX)
                then Some (start_request f (now i) x rest s)
                else None
            end
        | ReadNothing =>
            Some (set_pc LoopTop
                    (set_capOpened (if FLAGS_loop_input c then reopened i else false) s))
        | ReadBroken => Some (set_pc (Thrown FrameReadError) s)
        end
      else if must_wait s then None else Some (set_pc LoopTop s)
  | [] => if must_wait s then None else Some (set_pc LoopTop s)
  end.

Definition main_step (c : Config) (i : Input) (s : State) : option State :=
  match pc s with
  | LoopTop =>
      match callbackException s with
      | Some e => Some (set_pc (Thrown (CallbackFailure e)) s)
      | None => Some (set_pc Locked s)
      end
  | Locked =>
      match callbackLock s with
      | Some _ => None
      | None => Some (locked_block c s)
      end
  | Body (Some r) => Some (handle_key c (key i) (show_result r s))
  | Body None => no_result c i s
  | SwitchWait =>
      if requests_ready (modeRequests c (isUserSpecifiedMode s)) s
      then Some (finish_switch c s) else None
  | Exited why =>
      if requests_ready (modeRequests c (isUserSpecifiedMode s)) s
      then Some (set_pc (Finished why) s) else None
  | Finished _ | Thrown _ => None
  end.

(** ** The completion callback: lines 468-504 *)

(** [unordered_map::insert] keeps an existing entry. *)
Definition map_insert_new (k : Z) (r : RequestResult)
    (m : gmap Z RequestResult) : gmap Z RequestResult :=
  match m !! k with
  | Some _ => m
  | None => <[k := r]> m
  end.

(** Lines 481-491: the result is stored with the flag as read at line
    490; or lines 497-501 when the extraction throws, after which the
    callback returns. *)
Definition callback_body (x : Slot) (cb : Callback) (o : Outcome) (s : State) : State :=
  match o with
  | Extracted =>
      {| pc := pc s;
         isUserSpecifiedMode := isUserSpecifiedMode s;
         emptyRequests := emptyRequests s;
         completedRequestResults :=
           map_insert_new (cbFrameId cb)
             {| frame := cbFrame cb;
                requestStartTime := cbStartTime cb;
                isSameMode := eqb (cbFrameMode cb) (isUserSpecifiedMode s) |}
             (completedRequestResults s);
         nextFrameId := nextFrameId s;
         nextFrameIdToShow := nextFrameIdToShow s;
         callbackException := callbackException s;
         capOpened := capOpened s;
         inflight := inflight s;
         callbackLock := Some (x, AtTest);
         shown := shown s;
         metricCalls := metricCalls s |}
  | Throws e =>
      {| pc := pc s;
         isUserSpecifiedMode := isUserSpecifiedMode s;
         emptyRequests := emptyRequests s;
         completedRequestResults := completedRequestResults s;
         nextFrameId := nextFrameId s;
         nextFrameIdToShow := nextFrameIdToShow s;
         callbackException :=
           match callbackException s with
           | Some e0 => Some e0
           | None => Some e
           end;
         capOpened := capOpened s;
         inflight := delete x (inflight s);
         callbackLock := None;
         shown := shown s;
         metricCalls := metricCalls s |}
  end.

(** The callback of [x] returns: the mutex is free and [x] is no longer
    running. *)
Definition callback_return (x : Slot) (l : list Slot) (s : State) : State :=
  {| pc := pc s;
     isUserSpecifiedMode := isUserSpecifiedMode s;
     emptyRequests := l;
     completedRequestResults := completedRequestResults s;
     nextFrameId := nextFrameId s;
     nextFrameIdToShow := nextFrameIdToShow s;
     callbackException := callbackException s;
     capOpened := capOpened s;
     inflight := delete x (inflight s);
     callbackLock := None;
     shown := shown s;
     metricCalls := metricCalls s |}.

(** Line 493: the flag is read again. *)
Definition callback_test (x : Slot) (cb : Callback) (s : State) : State :=
  if eqb (isUserSpecifiedMode s) (cbFrameMode cb)
  then {| pc := pc s;
          isUserSpecifiedMode := isUserSpecifiedMode s;
          emptyRequests := emptyRequests s;
          completedRequestResults := completedRequestResults s;
          nextFrameId := nextFrameId s;
          nextFrameIdToShow := nextFrameIdToShow s;
          callbackException := callbackException s;
          capOpened := capOpened s;
          inflight := inflight s;
          callbackLock := Some (x, AtPush);
          shown := shown s;
          metricCalls := metricCalls s |}
  else callback_return x (emptyRequests s) s.

(** Line 494. *)
Definition callback_push (x : Slot) (s : State) : State :=
  callback_return x (emptyRequests s ++ [x]) s.

Definition terminated (p : Pc) : bool :=
  match p with
  | Finished _ | Thrown _ => true
  | _ => false
  end.

(** The runtime calls the callback of a running request, which first
    takes the mutex; nothing runs once [main] has returned. *)
Definition completion_callback (x : Slot) (o : Outcome) (s : State) : option State :=
  if terminated (pc s) then None
  else match callbackLock s, inflight s !! x with
       | None, Some cb => Some (callback_body x cb o s)
       | _, _ => None
       end.

Definition callback_proceed (s : State) : option State :=
  if terminated (pc s) then None
  else match callbackLock s with
       | Some (x, AtTest) =>
           match inflight s !! x with
           | Some cb => Some (callback_test x cb s)
           | None => None
           end
       | Some (x, AtPush) => Some (callback_push x s)
       | None => None
       end.

(** ** Runs *)

Definition step (c : Config) (e : Event) (s : State) : option State :=
  match e with
  | Main i => main_step c i s
  | Completion x o => completion_callback x o s
  | Proceed => callback_proceed s
  end.

Fixpoint run (c : Config) (tr : list Event) (s : State) : option State :=
  match tr with
  | [] => Some s
  | e :: tr' =>
      match step c e s with
      | Some s' => run c tr' s'
      | None => None
      end
  end.

Definition reachable (c : Config) (s : State) : Prop :=
  ∃ tr, run c tr (init c) = Some s.

(** ** Bookkeeping for the proofs *)

(** While a result is in hand, its id is counted as taken. *)
Definition showing (p : Pc) : Z :=
  match p with Body (Some _) => 1 | _ => 0 end.

Definition floor (s : State) : Z := nextFrameIdToShow s + showing (pc s).

(** Start times handed to [recalculate], in call order. *)
Definition recalculated (l : list MetricCall) : list nat :=
  omap (λ m, match m with Recalculate _ t => Some t | _ => None end) l.

(** Start times of the shown results that carry [isSameMode]. *)
Definition counted (l : list (Z * RequestResult)) : list nat :=
  omap (λ p, if isSameMode p.2 then Some (requestStartTime p.2) else None) l.


(** ** Invariants of the run *)

(** Every request the program has created. *)
Definition allRequests (c : Config) : list Slot :=
  modeRequests c true ++ modeRequests c false.

(** The idle deque, the running requests and the mutex. *)
Record slots_ok (c : Config) (s : State) : Prop := {
  so_nodup : NoDup (emptyRequests s);
  so_idle : ∀ x, x ∈ emptyRequests s → inflight s !! x = None;
  so_known : ∀ x, x ∈ emptyRequests s ∨ is_Some (inflight s !! x) → x ∈ allRequests c;
  so_lock : ∀ x p, callbackLock s = Some (x, p) → is_Some (inflight s !! x)
}.

(** Frame ids: the map of completed results and the running requests. *)
Record seq_ok (s : State) : Prop := {
  sq_range : 0 ≤ nextFrameIdToShow s ∧ floor s ≤ nextFrameId s ≤ INT_MAX;
  sq_completed : ∀ k r, completedRequestResults s !! k = Some r →
                        floor s ≤ k < nextFrameId s;
  sq_inflight : ∀ x cb, inflight s !! x = Some cb →
                        floor s ≤ cbFrameId cb < nextFrameId s;
  sq_fresh : ∀ x cb, inflight s !! x = Some cb →
                     (∀ p, callbackLock s ≠ Some (x, p)) →
                     completedRequestResults s !! cbFrameId cb = None;
  sq_stored : ∀ x p cb, callbackLock s = Some (x, p) → inflight s !! x = Some cb →
                        is_Some (completedRequestResults s !! cbFrameId cb);
  sq_inj : ∀ x y cb cb',
      inflight s !! x = Some cb → inflight s !! y = Some cb' →
      cbFrameId cb = cbFrameId cb' → x = y;
  sq_all : callbackException s = None →
           ∀ k, floor s ≤ k < nextFrameId s →
                is_Some (completedRequestResults s !! k)
                ∨ ∃ x cb, inflight s !! x = Some cb ∧ cbFrameId cb = k;
  sq_shown : fst <$> shown s = seqZ 0 (nextFrameIdToShow s)
}.

(** What has been shown and measured, and how the run can end. *)
Record obs_ok (c : Config) (s : State) : Prop := {
  ob_metrics : recalculated (metricCalls s) = counted (shown s);
  ob_noshow : FLAGS_no_show c = true →
              isUserSpecifiedMode s = true ∧ pc s ≠ SwitchWait;
  ob_finished : ∀ why, pc s = Finished why →
                ∀ x, x ∈ modeRequests c (isUserSpecifiedMode s) → inflight s !! x = None;
  ob_thrown : ∀ e, pc s = Thrown (CallbackFailure e) → callbackException s = Some e
}.

Record invariant (c : Config) (s : State) : Prop := {
  inv_slots : slots_ok c s;
  inv_seq : seq_ok s;
  inv_obs : obs_ok c s
}.

(** ** Concrete runs *)

Definition demo (n : nat) : Config :=
  {| FLAGS_nireq := n; FLAGS_no_show := false; FLAGS_loop_input := false |}.

(** The environment of one step: a frame is available, nothing typed. *)
Definition frame_in (f : nat) : Input :=
  {| key := -1; grabbed := ReadFrame f; now := f; reopened := false |}.

(** The environment of one step: a key is typed, the input has ended. *)
Definition key_in (k : Z) : Input :=
  {| key := k; grabbed := ReadNothing; now := 0; reopened := false |}.

Definition no_input : Input := key_in (-1).

(** One pass through the loop: exception test, locked block, body. *)
Definition iteration (i : Input) : list Event := [Main i; Main i; Main i].

Definition state_after (c : Config) (tr : list Event) : State :=
  default (init c) (run c tr (init c)).

(** Frame 0 is started on UserReq 0 and the control thread is back in
    the body with nothing to show. *)
Definition second_ready : list Event :=
  iteration (frame_in 0) ++ [Main no_input; Main no_input].

(** The callback of [x] runs from its first line to its last while the
    control thread stands still: it stores the result, finds the mode
    unchanged and puts [x] back. *)
Definition completes (x : Slot) : list Event :=
  [Completion x Extracted; Proceed; Proceed].

(** The same for a request submitted in the other mode: the result is
    stored and [x] is not put back. *)
Definition completes_stale (x : Slot) : list Event :=
  [Completion x Extracted; Proceed].

(** Frames 0 and 1 are running on the two user requests. *)
Definition two_started : list Event :=
  iteration (frame_in 0) ++ iteration (frame_in 1).

(** Frame 0 has completed and the control thread holds its result. *)
Definition first_in_hand : list Event :=
  two_started ++ completes (UserReq 0)
  ++ [Main no_input; Main no_input].

(** Frame 0 is shown and Tab is pressed: the flag is flipped and the
    control thread is inside the Wait. *)
Definition tab_pressed : list Event :=
  first_in_hand ++ [Main (key_in 9)].

(** The Wait on minLatencyInferRequest returns; frame 1 is still running
    on UserReq 1. *)
Definition switched : list Event :=
  tab_pressed ++ [Main no_input].

(** After the switch the input ends and the break test is passed. *)
Definition switch_then_eof : list Event :=
  switched
  ++ iteration no_input               (* nothing to show; cap.read fails, cap.release() *)
  ++ [Main no_input; Main no_input].  (* exception test, then the break *)

(** After the switch the control thread is in the body with nothing to
    show and minLatencyInferRequest idle. *)
Definition switched_ready : list Event :=
  switched ++ [Main no_input; Main no_input].


(** Three frames are started, two complete; frame 0 is shown and Tab is
    pressed, frame 1 is shown and Esc is pressed. *)
Definition switch_then_quit : list Event :=
  iteration (frame_in 0) ++ iteration (frame_in 1) ++ iteration (frame_in 2)
  ++ completes (UserReq 0) ++ completes (UserReq 1)
  ++ iteration (key_in 9)      (* frame 0 is shown, Tab *)
  ++ [Main no_input]           (* the Wait on minLatencyInferRequest returns *)
  ++ iteration (key_in 27)     (* frame 1 is shown, Esc *)
  ++ [Main no_input].          (* the final Wait on minLatencyInferRequest *)

(** While frame 0 is running on UserReq 0, UserReq 1 completes and is
    started again, twice. *)
Definition head_of_line : list Event :=
  two_started
  ++ completes (UserReq 1) ++ iteration (frame_in 2)
  ++ completes (UserReq 1) ++ iteration (frame_in 3).

(** One request, one frame, shown, then the input ends: the control
    thread stands before the locked block that breaks. *)
Definition single_frame : list Event :=
  iteration (frame_in 0) ++ completes (UserReq 0)
  ++ iteration no_input        (* frame 0 is shown *)
  ++ iteration no_input        (* cap.read fails, cap.release() *)
  ++ [Main no_input].

(** Two frames are running and the callback of UserReq 1 throws. *)
Definition one_failure : list Event :=
  two_started ++ [Completion (UserReq 1) (Throws 7)].


(** Two frames are running; frame 0 completes and the control thread
    takes its result.  The callback of UserReq 1 stores its result and
    passes the test of line 493; then Tab is pressed, the Wait on
    minLatencyInferRequest returns and emptyRequests is refilled; only
    now the callback reaches line 494. *)
Definition raced_push : list Event :=
  first_in_hand
  ++ [Completion (UserReq 1) Extracted; Proceed]
  ++ [Main (key_in 9); Main no_input]
  ++ [Proceed].

(** Two frames are running; frame 0 completes and is shown, and Esc is
    pressed.  While the control thread is in the final Wait the callback
    of UserReq 1 throws; then the Wait returns. *)
Definition failure_after_quit : list Event :=
  two_started ++ completes (UserReq 0) ++ iteration (key_in 27)
  ++ [Completion (UserReq 1) (Throws 7)]
  ++ [Main no_input].

(** ** Frames in, frames out *)

(** What one event hands to a request: the frame read by [cap.read] and
    the start time, when the event is the step of lines 443-507 that
    starts a request. *)
Definition started_by (e : Event) (s : State) : list (nat * nat) :=
  match e with
  | Main i =>
      match pc s, emptyRequests s, grabbed i, callbackLock s with
      | Body None, _ :: _, ReadFrame f, None =>
          if capOpened s && bool_decide (nextFrameId s < INT_MAX)
          then [(f, now i)] else []
      | _, _, _, _ => []
      end
  | Completion _ _ | Proceed => []
  end.

(** The frames submitted along a run, in submission order. *)
Fixpoint frames_read (c : Config) (tr : list Event) (s : State) : list (nat * nat) :=
  match tr with
  | [] => []
  | e :: tr' =>
      match step c e s with
      | Some s' => started_by e s ++ frames_read c tr' s'
      | None => []
      end
  end.

(** Frames 10 and 11 are started; the second completes first; both are
    shown. *)
Definition out_of_order : list Event :=
  iteration (frame_in 10) ++ iteration (frame_in 11)
  ++ completes (UserReq 1) ++ completes (UserReq 0)
  ++ iteration no_input ++ iteration no_input.

Definition payload (r : RequestResult) : nat * nat :=
  (frame r, requestStartTime r).

Record payload_ok (l : list (nat * nat)) (s : State) : Prop := {
  po_length : Z.of_nat (length l) = nextFrameId s;
  po_completed : ∀ k r, completedRequestResults s !! k = Some r →
                        l !! Z.to_nat k = Some (payload r);
  po_inflight : ∀ x cb, inflight s !! x = Some cb →
                        l !! Z.to_nat (cbFrameId cb) = Some (cbFrame cb, cbStartTime cb);
  po_hand : ∀ r, pc s = Body (Some r) →
                 l !! Z.to_nat (nextFrameIdToShow s) = Some (payload r);
  po_shown : (λ p, payload p.2) <$> shown s = take (length (shown s)) l
}.

(** ** Runs without display, without requests *)

Definition headless (n : nat) : Config :=
  {| FLAGS_nireq := n; FLAGS_no_show := true; FLAGS_loop_input := false |}.

(** Under -no_show: nothing of the min-latency pool ever runs, the user
    pool is split between emptyRequests and the running requests, and a
    request whose callback threw is missing from both. *)
Record headless_ok (c : Config) (s : State) : Prop := {
  hl_mode : ∀ x cb, inflight s !! x = Some cb → cbFrameMode cb = true;
  hl_full : callbackException s = None →
            (length (emptyRequests s) + size (inflight s) = FLAGS_nireq c)%nat;
  hl_short : callbackException s ≠ None →
             (length (emptyRequests s) + size (inflight s) < FLAGS_nireq c)%nat;
  hl_done : ∀ why, pc s = Exited why ∨ pc s = Finished why →
            why = Exhausted
            ∧ inflight s = ∅
            ∧ completedRequestResults s = ∅
            ∧ callbackException s = None
            ∧ nextFrameIdToShow s = nextFrameId s
}.

(** With no user request at all the control thread can only reach the
    wait of line 511, with nothing started. *)
Record starved (s : State) : Prop := {
  sv_pc : pc s = LoopTop ∨ pc s = Locked ∨ pc s = Body None;
  sv_mode : isUserSpecifiedMode s = true;
  sv_empty : emptyRequests s = [];
  sv_inflight : inflight s = ∅;
  sv_lock : callbackLock s = None;
  sv_completed : completedRequestResults s = ∅;
  sv_exception : callbackException s = None;
  sv_cap : capOpened s = true;
  sv_next : nextFrameId s = 0;
  sv_shown : shown s = []
}.


(** * object_detection_demo_ssd_async: the rest of main *)

(** ** Labels: lines 254-259 and 392-393 *)

Definition INT_MIN : Z := -2147483648.

(** [static_cast<int>(labels.size())]. *)
Definition int_of_size (n : nat) : Z :=
  let m := Z.of_nat n mod 4294967296 in
  if m <? 2147483648 then m else m - 4294967296.

(** [static_cast<size_t>(label)]. *)
Definition size_t_of_int (z : Z) : Z := z mod 18446744073709551616.

(** Lines 254-259.  [num_classes - 1] on [INT_MIN] is undefined. *)
Definition adjust_labels (labels : list string) (num_classes : Z) : option (list string) :=
  if int_of_size (length labels) =? num_classes then Some labels
  else if num_classes =? INT_MIN then None
  else if int_of_size (length labels) =? num_classes - 1
       then Some ("fake"%string :: labels)   (* labels.insert(labels.begin(), "fake") *)
       else Some [].                         (* labels.clear() *)

(** Lines 392-393, the name in front of the confidence.  [None] would be
    a read outside the vector. *)
Definition label_text (labels : list string) (label : Z) : option string :=
  if size_t_of_int label <? Z.of_nat (length labels)
  then labels !! Z.to_nat (size_t_of_int label)
  else Some ("label #" +:+ pretty label).

(** ** The detections of one result: lines 368-399 *)

(** One box handed to [cv::putText] and [cv::rectangle]. *)
Record Box (F : Type) : Type := {
  box_label : Z;
  box_confidence : F;
  box_xmin : F;
  box_ymin : F;
  box_xmax : F;
  box_ymax : F
}.
Arguments Build_Box {F}.
Arguments box_label {F}.
Arguments box_confidence {F}.

(** One row of the output blob: image id, label, confidence and the
    four corners. *)
Record Detection (F : Type) : Type := {
  det_image_id : F;
  det_label : F;
  det_confidence : F;
  det_xmin : F;
  det_ymin : F;
  det_xmax : F;
  det_ymax : F
}.
Arguments det_image_id {F}.
Arguments det_label {F}.
Arguments det_confidence {F}.
Arguments det_xmin {F}.
Arguments det_ymin {F}.
Arguments det_xmax {F}.
Arguments det_ymax {F}.

Section Detections.
(** The float operations of the loop are kept abstract: [image_id < 0],
    [confidence > FLAGS_t], [static_cast<int>] and the product with the
    frame width or height. *)
Variable F : Type.
Variable is_negative : F → bool.
Variable above_threshold : F → bool.
Variable to_int : F → Z.
Variable times : F → Z → F.

(** The loop from index [i] on, with [n] rounds left; [detections] is
    the flat float buffer, a read outside it gives [None]. *)
Fixpoint draw_detections (n i objectSize : nat) (width height : Z)
    (detections : list F) : option (list (Box F)) :=
  match n with
  | O => Some []
  | S n' =>
      image_id ← detections !! (i * objectSize + 0)%nat;
      if is_negative image_id then Some []          (* break *)
      else
        confidence ← detections !! (i * objectSize + 2)%nat;
        label ← detections !! (i * objectSize + 1)%nat;
        xmin ← detections !! (i * objectSize + 3)%nat;
        ymin ← detections !! (i * objectSize + 4)%nat;
        xmax ← detections !! (i * objectSize + 5)%nat;
        ymax ← detections !! (i * objectSize + 6)%nat;
        rest ← draw_detections n' (S i) objectSize width height detections;
        Some (if above_threshold confidence
              then Build_Box (to_int label) confidence
                     (times xmin width) (times ymin height)
                     (times xmax width) (times ymax height) :: rest
              else rest)
  end.

Definition flat_row (d : Detection F) : list F :=
  [det_image_id d; det_label d; det_confidence d;
   det_xmin d; det_ymin d; det_xmax d; det_ymax d].

Definition box_of (width height : Z) (d : Detection F) : Box F :=
  Build_Box (to_int (det_label d)) (det_confidence d)
    (times (det_xmin d) width) (times (det_ymin d) height)
    (times (det_xmax d) width) (times (det_ymax d) height).

(** The rows before the first one with a negative image id. *)
Fixpoint valid_prefix (rows : list (Detection F)) : list (Detection F) :=
  match rows with
  | [] => []
  | d :: rows' => if is_negative (det_image_id d) then [] else d :: valid_prefix rows'
  end.
End Detections.

(** ** The shape of the output: lines 260-268 *)

(** A [size_t] stored into an [int]. *)
Definition int_of_size_t (z : Z) : Z :=
  let m := z mod 4294967296 in
  if m <? 2147483648 then m else m - 4294967296.

Inductive DimsCheck : Type :=
| DimsAccepted (maxProposalCount objectSize : Z)
| DimsRejected (what : string).

(** [outputDims[2]] and [outputDims[3]] are read first; on a shorter
    vector these reads are outside it ([None]). *)
Definition check_output_dims (outputDims : list Z) : option DimsCheck :=
  maxProposalCount ← int_of_size_t <$> outputDims !! 2%nat;
  objectSize ← int_of_size_t <$> outputDims !! 3%nat;
  Some (if negb (objectSize =? 7)
        then DimsRejected "Output should have 7 as a last dimension"
        else if negb (length outputDims =? 4)%nat
             then DimsRejected "Incorrect output dimensions for SSD"
             else DimsAccepted maxProposalCount objectSize).

(** ** The two plugin configurations: lines 127-175 *)

(** The keys and values are macros of the inference engine; they are
    kept symbolic, distinct macros being distinct keys. *)
Inductive ConfigKey : Type :=
| KEY_CPU_THREADS_NUM
| KEY_CPU_BIND_THREAD
| KEY_CPU_THROUGHPUT_STREAMS
| KEY_GPU_THROUGHPUT_STREAMS
| KEY_CLDNN_PLUGIN_THROTTLE.

Inductive ConfigValue : Type :=
| VALUE_YES
| VALUE_NO
| VALUE_CPU_THROUGHPUT_AUTO
| VALUE_GPU_THROUGHPUT_AUTO
| Text (s : string).

Global Instance ConfigKey_eq_dec : EqDecision ConfigKey.
Proof. solve_decision. Defined.

Definition ConfigKey_to_nat (k : ConfigKey) : nat :=
  match k with
  | KEY_CPU_THREADS_NUM => 0
  | KEY_CPU_BIND_THREAD => 1
  | KEY_CPU_THROUGHPUT_STREAMS => 2
  | KEY_GPU_THROUGHPUT_STREAMS => 3
  | KEY_CLDNN_PLUGIN_THROTTLE => 4
  end.

Definition ConfigKey_of_nat (n : nat) : ConfigKey :=
  match n with
  | 0%nat => KEY_CPU_THREADS_NUM
  | 1%nat => KEY_CPU_BIND_THREAD
  | 2%nat => KEY_CPU_THROUGHPUT_STREAMS
  | 3%nat => KEY_GPU_THROUGHPUT_STREAMS
  | _ => KEY_CLDNN_PLUGIN_THROTTLE
  end.

Global Instance ConfigKey_countable : Countable ConfigKey.
Proof.
  apply (inj_countable' ConfigKey_to_nat ConfigKey_of_nat). by intros [].
Defined.

(** [std::map::insert]: an existing key keeps its value. *)
Definition config_insert (k : ConfigKey) (v : ConfigValue)
    (m : gmap ConfigKey ConfigValue) : gmap ConfigKey ConfigValue :=
  match m !! k with
  | Some _ => m
  | None => <[k := v]> m
  end.

(** [FLAGS_d.find("MULTI") != std::string::npos] *)
Definition names_multi (FLAGS_d : string) : bool :=
  bool_decide (is_Some (String.index 0 "MULTI" FLAGS_d)).

Record Configs : Type := {
  userSpecifiedConfig : gmap ConfigKey ConfigValue;
  minLatencyConfig : gmap ConfigKey ConfigValue;
  deviceNstreams : gmap string N
}.

(** [deviceNstreams.count(device) > 0 ? std::to_string(...) : AUTO] *)
Definition streams_value (auto : ConfigValue) (nstreams : gmap string N)
    (device : string) : ConfigValue :=
  match nstreams !! device with
  | Some n => Text (pretty n)
  | None => auto
  end.

(** One round of the loop over [devices].  [getConfig device] is what
    the plugin reports as its number of streams (lines 156 and 165). *)
Definition configure_device (FLAGS_d : string) (FLAGS_nthreads : N)
    (devices : list string) (getConfig : string → N)
    (device : string) (st : Configs) : Configs :=
  if bool_decide (device = "CPU") then
    let u1 := if negb (FLAGS_nthreads =? 0)%N
              then config_insert KEY_CPU_THREADS_NUM (Text (pretty FLAGS_nthreads))
                     (userSpecifiedConfig st)
              else userSpecifiedConfig st in
    let u2 := if names_multi FLAGS_d && bool_decide ("GPU" ∈ devices)
              then config_insert KEY_CPU_BIND_THREAD VALUE_NO u1
              else config_insert KEY_CPU_BIND_THREAD VALUE_YES u1 in
    let u3 := config_insert KEY_CPU_THROUGHPUT_STREAMS
                (streams_value VALUE_CPU_THROUGHPUT_AUTO (deviceNstreams st) device) u2 in
    {| userSpecifiedConfig := u3;
       minLatencyConfig :=
         config_insert KEY_CPU_THROUGHPUT_STREAMS (Text "1") (minLatencyConfig st);
       deviceNstreams := <[device := getConfig device]> (deviceNstreams st) |}
  else if bool_decide (device = "GPU") then
    let u1 := config_insert KEY_GPU_THROUGHPUT_STREAMS
                (streams_value VALUE_GPU_THROUGHPUT_AUTO (deviceNstreams st) device)
                (userSpecifiedConfig st) in
    let u2 := if names_multi FLAGS_d && bool_decide ("CPU" ∈ devices)
              then config_insert KEY_CLDNN_PLUGIN_THROTTLE (Text "1") u1
              else u1 in
    {| userSpecifiedConfig := u2;
       minLatencyConfig :=
         config_insert KEY_GPU_THROUGHPUT_STREAMS (Text "1") (minLatencyConfig st);
       deviceNstreams := <[device := getConfig device]> (deviceNstreams st) |}
  else st.

(** The loop of lines 135-175 over the devices in the order of the set;
    [nstreams] is the result of [parseValuePerDevice]. *)
Definition configure (FLAGS_d : string) (FLAGS_nthreads : N)
    (devices : list string) (getConfig : string → N)
    (nstreams : gmap string N) : Configs :=
  foldl (λ st device, configure_device FLAGS_d FLAGS_nthreads devices getConfig device st)
    {| userSpecifiedConfig := ∅; minLatencyConfig := ∅; deviceNstreams := nstreams |}
    devices.

(** What the loop has built once the devices of [seen] are done. *)
Definition expected_user (FLAGS_d : string) (FLAGS_nthreads : N)
    (devices seen : list string) (nstreams : gmap string N) (k : ConfigKey)
    : option ConfigValue :=
  let cpu := bool_decide ("CPU" ∈ seen) in
  let gpu := bool_decide ("GPU" ∈ seen) in
  match k with
  | KEY_CPU_THREADS_NUM =>
      if cpu && negb (FLAGS_nthreads =? 0)%N
      then Some (Text (pretty FLAGS_nthreads)) else None
  | KEY_CPU_BIND_THREAD =>
      if cpu
      then Some (if names_multi FLAGS_d && bool_decide ("GPU" ∈ devices)
                 then VALUE_NO else VALUE_YES)
      else None
  | KEY_CPU_THROUGHPUT_STREAMS =>
      if cpu then Some (streams_value VALUE_CPU_THROUGHPUT_AUTO nstreams "CPU") else None
  | KEY_GPU_THROUGHPUT_STREAMS =>
      if gpu then Some (streams_value VALUE_GPU_THROUGHPUT_AUTO nstreams "GPU") else None
  | KEY_CLDNN_PLUGIN_THROTTLE =>
      if gpu && names_multi FLAGS_d && bool_decide ("CPU" ∈ devices)
      then Some (Text "1") else None
  end.

Definition expected_latency (seen : list string) (k : ConfigKey)
    : option ConfigValue :=
  match k with
  | KEY_CPU_THROUGHPUT_STREAMS =>
      if bool_decide ("CPU" ∈ seen) then Some (Text "1") else None
  | KEY_GPU_THROUGHPUT_STREAMS =>
      if bool_decide ("GPU" ∈ seen) then Some (Text "1") else None
  | _ => None
  end.

Record configs_ok (FLAGS_d : string) (FLAGS_nthreads : N)
    (devices seen : list string) (nstreams : gmap string N) (st : Configs) : Prop := {
  co_user : ∀ k, userSpecifiedConfig st !! k
                 = expected_user FLAGS_d FLAGS_nthreads devices seen nstreams k;
  co_latency : ∀ k, minLatencyConfig st !! k = expected_latency seen k;
  co_streams : ∀ d, d ∉ seen → deviceNstreams st !! d = nstreams !! d
}.

(** * segmentation_demo: command line and colours *)

(** ** The command line: lines 109-130 *)

Record SegFlags : Type := {
  FLAGS_h : bool;
  FLAGS_i : string;
  FLAGS_m : string;
  FLAGS_output_resolution : string
}.

(** [s.find("x")]; [None] is [std::string::npos]. *)
Definition find_x (s : string) : option nat := String.index 0 "x" s.

Inductive BadArguments : Type :=
| InputNotSet           (* Parameter -i is not set *)
| ModelNotSet           (* Parameter -m is not set *)
| ResolutionFormat.     (* Correct format of -output_resolution ... *)

Inductive Parsed : Type :=
| Returns (b : bool)
| LogicError (what : BadArguments).

Definition ParseAndCheckCommandLine (f : SegFlags) : Parsed :=
  if FLAGS_h f then Returns false
  else if bool_decide (FLAGS_i f = "") then LogicError InputNotSet
  else if bool_decide (FLAGS_m f = "") then LogicError ModelNotSet
  else if negb (bool_decide (FLAGS_output_resolution f = ""))
          && bool_decide (find_x (FLAGS_output_resolution f) = None)
       then LogicError ResolutionFormat
       else Returns true.

(** ** [std::stoi] in base 10 *)

Inductive StoiError : Type := invalid_argument | out_of_range.

Definition is_space (a : ascii) : bool :=
  let n := nat_of_ascii a in
  (n =? 32)%nat || ((9 <=? n)%nat && (n <=? 13)%nat).

Definition digit_of (a : ascii) : option Z :=
  let n := Z.of_nat (nat_of_ascii a) in
  if (48 <=? n) && (n <=? 57) then Some (n - 48) else None.

Fixpoint skip_spaces (s : string) : string :=
  match s with
  | String a s' => if is_space a then skip_spaces s' else s
  | EmptyString => s
  end.

(** The digits in front of [s], after the value [acc] read so far. *)
Fixpoint read_digits (acc : Z) (s : string) : Z :=
  match s with
  | String a s' =>
      match digit_of a with
      | Some d => read_digits (acc * 10 + d) s'
      | None => acc
      end
  | EmptyString => acc
  end.

Definition read_number (s : string) : option Z :=
  match s with
  | String a s' =>
      match digit_of a with
      | Some d => Some (read_digits d s')
      | None => None
      end
  | EmptyString => None
  end.

(** White space, an optional sign, then digits; what follows the digits
    is ignored.  No digit: [std::invalid_argument]; a value that is no
    [int]: [std::out_of_range]. *)
Definition split_sign (s : string) : bool * string :=
  match s with
  | String a s' =>
      if bool_decide (a = "-"%char) then (true, s')
      else if bool_decide (a = "+"%char) then (false, s')
      else (false, s)
  | EmptyString => (false, s)
  end.

Definition stoi (s : string) : StoiError + Z :=
  let '(negative, s2) := split_sign (skip_spaces s) in
  match read_number s2 with
  | None => inl invalid_argument
  | Some v =>
      let v' := if negative then - v else v in
      if (INT_MIN <=? v') && (v' <=? INT_MAX) then inr v' else inl out_of_range
  end.

(** ** The requested resolution: lines 258 and 278-286 *)

Inductive Requested : Type :=
| FrameSize                       (* found == npos: the size of the frame *)
| SizeOf (width height : Z)       (* cv::Size{width, height} *)
| StoiThrows (e : StoiError).

Definition requested_resolution (FLAGS_output_resolution : string) : Requested :=
  match find_x FLAGS_output_resolution with
  | None => FrameSize
  | Some found =>
      match stoi (substring 0 found FLAGS_output_resolution) with
      | inl e => StoiThrows e
      | inr width =>
          match stoi (substring (found + 1) (String.length FLAGS_output_resolution)
                        FLAGS_output_resolution) with
          | inl e => StoiThrows e
          | inr height => SizeOf width height
          end
      end
  end.

Definition starts_with_digit (s : string) : bool :=
  match s with
  | String a _ => bool_decide (is_Some (digit_of a))
  | EmptyString => false
  end.

(** Every character is a digit or a minus sign. *)
Fixpoint numeral_chars (s : string) : bool :=
  match s with
  | String a s' =>
      (bool_decide (is_Some (digit_of a)) || bool_decide (a = "-"%char))
      && numeral_chars s'
  | EmptyString => true
  end.

(** ** The colour table: lines 132-177 *)

Record Color : Type := { red : Z; green : Z; blue : Z }.

Definition PASCAL_VOC_COLORS : list Color := [
  Build_Color 0 0 0;
  Build_Color 128 0 0;
  Build_Color 0 128 0;
  Build_Color 128 128 0;
  Build_Color 0 0 128;
  Build_Color 128 0 128;
  Build_Color 0 128 128;
  Build_Color 128 128 128;
  Build_Color 64 0 0;
  Build_Color 192 0 0;
  Build_Color 64 128 0;
  Build_Color 192 128 0;
  Build_Color 64 0 128;
  Build_Color 192 0 128;
  Build_Color 64 128 128;
  Build_Color 192 128 128;
  Build_Color 0 64 0;
  Build_Color 128 64 0;
  Build_Color 0 192 0;
  Build_Color 128 192 0;
  Build_Color 0 64 128
].

(** [cv::Vec3b] *)
Definition Vec3b : Type := Z * Z * Z.

(** A [CV_8UC3] matrix, row by row; an element that was never assigned
    is [None].  The empty matrix has no rows. *)
Record Mat3b : Type := {
  mat_rows : nat;
  mat_cols : nat;
  mat_data : list (option Vec3b)
}.

(** [cv::Mat(rows, cols, CV_8UC3)]: the elements are allocated, not set. *)
Definition new_Mat3b (rows cols : nat) : Mat3b :=
  {| mat_rows := rows; mat_cols := cols; mat_data := replicate (rows * cols) None |}.

Definition mat_empty (m : Mat3b) : bool := bool_decide (mat_data m = []).

(** [m.at<cv::Vec3b>(i, 0) = v] *)
Definition mat_set (i : nat) (v : Vec3b) (m : Mat3b) : Mat3b :=
  {| mat_rows := mat_rows m; mat_cols := mat_cols m;
     mat_data := <[(i * mat_cols m)%nat := Some v]> (mat_data m) |}.

(** The statics of [applyColorMap]: the table and how many numbers have
    been drawn from [rng]. *)
Record Statics : Type := {
  colors : Mat3b;
  drawn : nat
}.

Definition statics0 : Statics :=
  {| colors := {| mat_rows := 0; mat_cols := 0; mat_data := [] |}; drawn := 0 |}.

(** The first loop, from index [i] on. *)
Fixpoint fill_palette (palette : list Color) (i : nat) (m : Mat3b) : nat * Mat3b :=
  match palette with
  | [] => (i, m)
  | c :: palette' =>
      fill_palette palette' (S i) (mat_set i (blue c, green c, red c) m)
  end.

(** The second loop, [n] rounds from index [i] on; [distr k] is the
    [k]-th number drawn. *)
Fixpoint fill_random (distr : nat → Z) (n i : nat) (st : Statics) : Statics :=
  match n with
  | O => st
  | S n' =>
      let k := drawn st in
      fill_random distr n' (S i)
        {| colors := mat_set i (distr k, distr (S k), distr (S (S k))) (colors st);
           drawn := S (S (S k)) |}
  end.

(** Lines 162-171. *)
Definition init_colors (distr : nat → Z) (st : Statics) : Statics :=
  if mat_empty (colors st) then
    let '(i, m) := fill_palette PASCAL_VOC_COLORS 0 (new_Mat3b 256 1) in
    fill_random distr (mat_cols m - i) i {| colors := m; drawn := drawn st |}
  else st.

(** [cv::applyColorMap(input, out, colors)] with a table of 256 rows:
    the pixel of value [v] becomes row [v] of the table. *)
Definition applyColorMap (distr : nat → Z) (input : list nat) (st : Statics)
    : list (option Vec3b) * Statics :=
  let st' := init_colors distr st in
  ((λ v, mjoin (mat_data (colors st') !! v)) <$> input, st').

Fixpoint applyColorMap_calls (distr : nat → Z) (inputs : list (list nat))
    (st : Statics) : list (list (option Vec3b)) * Statics :=
  match inputs with
  | [] => ([], st)
  | input :: inputs' =>
      let '(out, st') := applyColorMap distr input st in
      let '(outs, st'') := applyColorMap_calls distr inputs' st' in
      (out :: outs, st'')
  end.

Definition bgr (c : Color) : Vec3b := (blue c, green c, red c).

(** The colour of class [v] in the order blue, green, red. *)
Definition pascal_color (v : nat) : option Vec3b := bgr <$> PASCAL_VOC_COLORS !! v.

Definition pascal_table : Mat3b :=
  {| mat_rows := 256; mat_cols := 1;
     mat_data := (Some ∘ bgr <$> PASCAL_VOC_COLORS) ++ replicate 235 None |}.

(** ** Proof tools *)

Ltac step_cases H :=
  unfold step, main_step, completion_callback, callback_proceed, no_result,
    locked_block, handle_key, finish_switch, flip_mode, show_result,
    start_request, callback_body, callback_test, callback_push, callback_return,
    set_pc, log_metric, set_emptyRequests, set_capOpened in H;
  simpl in H;
  repeat case_match; simplify_eq/=.

(** * Proofs *)

(** ** Runs, one event at a time *)

Lemma run_snoc c tr e s :
  run c (tr ++ [e]) s =
  match run c tr s with Some s' => step c e s' | None => None end.
Proof.
  revert s. induction tr as [|e0 tr IH]; intros s; simpl.
  - destruct (step c e s); reflexivity.
  - destruct (step c e0 s); [apply IH | reflexivity].
Qed.

Lemma reachable_init c : reachable c (init c).
Proof. exists []. reflexivity. Qed.


Lemma reachable_ind' c (P : State → Prop) :
  P (init c) →
  (∀ e s s', reachable c s → P s → step c e s = Some s' → P s') →
  ∀ s, reachable c s → P s.
Proof.
  intros Hinit Hstep s [tr Htr]. revert s Htr.
  induction tr as [|e tr IH] using rev_ind; intros s Htr.
  - simpl in Htr. congruence.
  - rewrite run_snoc in Htr.
    destruct (run c tr (init c)) as [s0|] eqn:Hrun; [|discriminate].
    eapply Hstep; [exists tr; exact Hrun | apply IH; reflexivity | exact Htr].
Qed.

(** ** The pools *)

Lemma elem_of_userSpecifiedInferRequests c x :
  x ∈ userSpecifiedInferRequests c ↔ ∃ i, x = UserReq i ∧ (i < FLAGS_nireq c)%nat.
Proof.
  unfold userSpecifiedInferRequests. rewrite list_elem_of_fmap.
  split.
  - intros (i & -> & Hi). apply elem_of_seq in Hi. exists i. split; [done | lia].
  - intros (i & -> & Hi). exists i. split; [done |]. apply elem_of_seq. lia.
Qed.

Lemma NoDup_modeRequests c m : NoDup (modeRequests c m).
Proof.
  destruct m; simpl.
  - unfold userSpecifiedInferRequests.
    apply NoDup_fmap_2; [| apply NoDup_seq].
    intros i j Hij. congruence.
  - apply NoDup_singleton.
Qed.

Lemma modeRequests_disjoint c m m' x :
  x ∈ modeRequests c m → x ∈ modeRequests c m' → m = m'.
Proof.
  destruct m, m'; simpl; try done.
  - rewrite elem_of_userSpecifiedInferRequests, list_elem_of_singleton.
    intros (i & -> & _) ?. discriminate.
  - rewrite elem_of_userSpecifiedInferRequests, list_elem_of_singleton.
    intros -> (i & ? & _). discriminate.
Qed.

Lemma elem_of_allRequests c x m : x ∈ modeRequests c m → x ∈ allRequests c.
Proof. unfold allRequests. rewrite elem_of_app. destruct m; auto. Qed.

Lemma requests_ready_spec l s :
  requests_ready l s = true ↔ ∀ x, x ∈ l → inflight s !! x = None.
Proof.
  unfold requests_ready. rewrite forallb_forall.
  split; intros H x Hx.
  - apply list_elem_of_In in Hx. apply H in Hx. by apply bool_decide_eq_true in Hx.
  - apply bool_decide_eq_true. apply H. by apply list_elem_of_In.
Qed.

Section SlotInvariant.
Variable c : Config.

Lemma slots_ok_init : slots_ok c (init c).
Proof.
  split; simpl.
  - apply (NoDup_modeRequests c true).
  - intros x _. apply lookup_empty.
  - intros x [Hx | [cb Hx]]; [by apply (elem_of_allRequests c x true) |].
    by rewrite lookup_empty in Hx.
  - done.
Qed.

Lemma slots_ok_step e s s' :
  slots_ok c s → step c e s = Some s' → slots_ok c s'.
Proof.
  intros [Hnd Hidle Hknown Hlock] Hstep.
  destruct s as [p m er comp nf ns ce co inf lk sh mc]; simpl in *.
  destruct e as [i | x o |].
  - step_cases Hstep; split; simpl; try done; eauto.
    + by apply NoDup_cons in Hnd as [_ ?].
    + intros x Hx. apply NoDup_cons in Hnd as [Hs _].
      rewrite lookup_insert_ne by (intros ->; done).
      apply Hidle. by right.
    + intros x [Hx | Hx].
      * apply Hknown. left. by right.
      * destruct (decide (x = s)) as [-> | Hne].
        -- apply Hknown. left. by left.
        -- rewrite lookup_insert_ne in Hx by done. apply Hknown. by right.
    + apply NoDup_modeRequests.
    + match goal with H : requests_ready _ _ = true |- _ =>
        exact (proj1 (requests_ready_spec _ _) H) end.
    + intros x [Hx | Hx]; [by eapply elem_of_allRequests | apply Hknown; by right].
  - step_cases Hstep; split; simpl; try done; eauto.
    all: try (intros x0 Hx0; apply lookup_delete_None; right; by apply Hidle).
    all: try (intros x0 [Hx0 | [cb [_ Hx0]%lookup_delete_Some]];
              apply Hknown; [by left | right; eauto]).
    all: try (intros x0 p0 [= <- <-]; eauto).
  - step_cases Hstep; split; simpl; try done; eauto.
    all: try (intros x0 Hx0; apply lookup_delete_None; right; by apply Hidle).
    all: try (intros x0 [Hx0 | [cb [_ Hx0]%lookup_delete_Some]];
              apply Hknown; [by left | right; eauto]).
    all: try (intros x0 p0 [= <- <-]; eauto).
    all: destruct (Hlock s AtPush eq_refl) as [cb Hcb].
    + apply NoDup_app. split_and!; [done | | apply NoDup_singleton].
      intros y Hy ->%list_elem_of_singleton. apply Hidle in Hy. congruence.
    + intros x0 [Hx0 | ->%list_elem_of_singleton]%elem_of_app.
      * apply lookup_delete_None. right. by apply Hidle.
      * apply lookup_delete_eq.
    + intros x0 [[Hx0 | ->%list_elem_of_singleton]%elem_of_app
                | [cb0 [_ Hx0]%lookup_delete_Some]]; apply Hknown; eauto.
Qed.
End SlotInvariant.

Lemma seqZ_snoc n : 0 ≤ n → seqZ 0 (n + 1) = seqZ 0 n ++ [n].
Proof.
  intros Hn. rewrite seqZ_app by lia. f_equal.
Qed.

Lemma map_insert_new_fresh k r m :
  m !! k = None → map_insert_new k r m = <[k := r]> m.
Proof. intros H. unfold map_insert_new. by rewrite H. Qed.

Section SequenceInvariant.
Variable c : Config.

Lemma seq_ok_init : seq_ok (init c).
Proof.
  split; unfold floor; simpl.
  - unfold INT_MAX. lia.
  - intros k r H. by rewrite lookup_empty in H.
  - intros x cb H. by rewrite lookup_empty in H.
  - intros x cb H. by rewrite lookup_empty in H.
  - done.
  - intros x y cb cb' H. by rewrite lookup_empty in H.
  - intros _ k Hk. lia.
  - reflexivity.
Qed.

Lemma seq_ok_step e s s' :
  slots_ok c s → seq_ok s → step c e s = Some s' → seq_ok s'.
Proof.
  intros Hslots [Hrange Hcomp Hinf Hfresh Hstored Hinj Hall Hshown] Hstep.
  pose proof (so_idle _ _ Hslots) as Hidle.
  pose proof (so_lock _ _ Hslots) as Hlock.
  destruct s as [p m er comp nf ns ce co inf lk sh mc]; unfold floor in *; simpl in *.
  destruct e as [i | x o |].
  - step_cases Hstep; rewrite ?Z.add_0_r in *;
      split; unfold floor; simpl; rewrite ?Z.add_0_r; try done; eauto.
    all: try (rewrite fmap_app, Hshown, seqZ_snoc by lia; done).
    all: try match goal with H : bool_decide _ = true |- _ =>
               apply bool_decide_eq_true in H end.
    all: try lia.
    + (* a result is found: it is below every other pending one *)
      match goal with H : comp !! ns = Some _ |- _ => apply Hcomp in H end. lia.
    + intros k r0 [Hne Hk]%lookup_delete_Some. apply Hcomp in Hk. lia.
    + intros x cb Hx. pose proof (Hinf _ _ Hx) as Hr.
      assert (cbFrameId cb ≠ ns); [| lia].
      intros Heq. pose proof (Hfresh _ _ Hx ltac:(done)) as Hn.
      rewrite Heq in Hn. congruence.
    + intros x cb Hx Hp. apply lookup_delete_None. right. by eapply Hfresh.
    + intros Hce k Hk. destruct (Hall Hce k ltac:(lia)) as [Hs | Hs]; [left | by right].
      rewrite lookup_delete_ne by lia. done.
    + (* a request is started under the next frame id *)
      intros k r Hk. apply Hcomp in Hk. lia.
    + intros x cb [[<- <-] | [Hne Hl]]%lookup_insert_Some; simpl; [lia |].
      apply Hinf in Hl. lia.
    + intros x cb [[<- <-] | [Hne Hl]]%lookup_insert_Some Hp; simpl.
      * destruct (comp !! nf) eqn:E; [apply Hcomp in E; lia | done].
      * by eapply Hfresh.
    + intros x y cb cb' [[<- <-] | [Hx Hl]]%lookup_insert_Some
                        [[<- <-] | [Hy Hl']]%lookup_insert_Some; simpl; try done.
      * intros ->. apply Hinf in Hl'. lia.
      * intros <-. apply Hinf in Hl. lia.
      * by eapply Hinj.
    + intros Hce k Hk. destruct (decide (k = nf)) as [-> | Hne].
      * right. eexists _, _. split; [apply lookup_insert_eq | done].
      * destruct (Hall Hce k ltac:(lia)) as [Hs | (y & cb & Hy & Hid)]; [by left |].
        right. exists y, cb. split; [| done].
        rewrite lookup_insert_ne; [done |].
        intros <-. rewrite Hidle in Hy by (by left). done.
  - step_cases Hstep; rewrite ?Z.add_0_r in *;
      split; unfold floor; simpl; rewrite ?Z.add_0_r; try done; eauto.
    all: match goal with H : _ !! _ = Some _ |- _ => rename H into Hx end.
    all: try (intros x0 cb [_ Hl]%lookup_delete_Some; exact (Hinf _ _ Hl)).
    all: try (intros x0 cb [_ Hl]%lookup_delete_Some Hp; by eapply Hfresh).
    all: try (intros x0 y cb cb' [_ Hl]%lookup_delete_Some [_ Hl']%lookup_delete_Some;
              exact (Hinj _ _ _ _ Hl Hl')).
    all: pose proof (Hfresh _ _ Hx ltac:(done)) as Hxn;
      rewrite map_insert_new_fresh by done.
    + intros k r [[<- <-] | [_ Hl]]%lookup_insert_Some; [by eapply Hinf | by eapply Hcomp].
    + intros x0 cb Hl Hp. rewrite lookup_insert_ne; [by eapply Hfresh |].
      intros Heq. assert (x = x0) as <- by (by eapply Hinj). by eapply Hp.
    + intros x0 p0 cb [= <- <-] Hl. simplify_eq. rewrite lookup_insert_eq. eauto.
    + intros Hce k Hk.
      destruct (Hall Hce k Hk) as [Hs | (y & cb & Hy & Hid)]; [left | by eauto].
      rewrite lookup_insert. case_decide; eauto.
  - step_cases Hstep; rewrite ?Z.add_0_r in *;
      split; unfold floor; simpl; rewrite ?Z.add_0_r; try done; eauto.
    all: try (intros x0 cb [_ Hl]%lookup_delete_Some; exact (Hinf _ _ Hl)).
    all: try (intros x0 y cb cb' [_ Hl]%lookup_delete_Some [_ Hl']%lookup_delete_Some;
              exact (Hinj _ _ _ _ Hl Hl')).
    all: try (intros x0 cb [Hne Hl]%lookup_delete_Some Hp; eapply Hfresh; [done |];
              intros p0 [= <- <-]; done).
    all: try (intros x0 cb Hl Hp; eapply Hfresh; [done |];
              intros p0 [= <- <-]; by eapply Hp).
    all: try (intros x0 p0 cb [= <- <-] Hl; by eapply Hstored).
    all: intros Hce k Hk;
      destruct (Hall Hce k Hk) as [Hs | (y & cb & Hy & Hid)]; [by left |];
      destruct (decide (y = s)) as [-> | Hne];
      [ left; subst k; by eapply Hstored
      | right; exists y, cb; split; [by rewrite lookup_delete_ne | done] ].
Qed.
End SequenceInvariant.

Lemma recalculated_snoc l m :
  recalculated (l ++ [m]) =
  recalculated l ++ match m with Recalculate _ t => [t] | _ => [] end.
Proof. unfold recalculated. rewrite omap_app. by destruct m. Qed.

Lemma counted_snoc l k r :
  counted (l ++ [(k, r)]) =
  counted l ++ (if isSameMode r then [requestStartTime r] else []).
Proof. unfold counted. rewrite omap_app. simpl. by destruct (isSameMode r). Qed.

Section ObservationInvariant.
Variable c : Config.

Lemma obs_ok_init : obs_ok c (init c).
Proof. split; simpl; try done. Qed.

Lemma obs_ok_step e s s' : obs_ok c s → step c e s = Some s' → obs_ok c s'.
Proof.
  intros [Hmet Hns Hfin Hthr] Hstep.
  destruct s as [p m er comp nf ns ce co inf lk sh mc]; simpl in *.
  destruct e as [i | x o |].
  - step_cases Hstep; split; simpl; try done; try congruence; eauto.
    all: try (intros Hc; destruct Hns as [? ?]; [congruence |]; split; [done | congruence]).
    all: rewrite ?recalculated_snoc, ?counted_snoc, ?Hmet;
      repeat match goal with H : isSameMode _ = _ |- _ => rewrite H; clear H end;
      rewrite ?app_nil_r; try done.
    all: try (intros Hc; destruct Hns as [? ?]; [congruence |]; split; [done | congruence]).
    + intros why' _.
      match goal with H : requests_ready _ _ = true |- _ =>
        exact (proj1 (requests_ready_spec _ _) H) end.
  - step_cases Hstep; split; simpl; try done; eauto.
    all: try (intros ? ->; discriminate).
  - step_cases Hstep; split; simpl; try done; eauto.
    all: try (intros ? ->; discriminate).
Qed.
End ObservationInvariant.

Lemma invariant_reachable c s : reachable c s → invariant c s.
Proof.
  revert s. apply reachable_ind'.
  - split; [apply slots_ok_init | apply seq_ok_init | apply obs_ok_init].
  - intros e s s' _ [Hsl Hsq Hob] Hstep. split.
    + by eapply slots_ok_step.
    + by eapply seq_ok_step.
    + by eapply obs_ok_step.
Qed.

(** ** Counting *)

Lemma length_modeRequests c m :
  length (modeRequests c m) = if m then FLAGS_nireq c else 1%nat.
Proof.
  destruct m; simpl; [| done].
  unfold userSpecifiedInferRequests. by rewrite length_fmap, length_seq.
Qed.

Lemma NoDup_allRequests c : NoDup (allRequests c).
Proof.
  apply NoDup_app. split_and!; try apply NoDup_modeRequests.
  intros x Hx Hx'. by pose proof (modeRequests_disjoint _ _ _ _ Hx Hx').
Qed.

Lemma size_keys_between {A} (m : gmap Z A) (a b : Z) :
  a ≤ b → (∀ k v, m !! k = Some v → a ≤ k < b) →
  Z.of_nat (size m) ≤ b - a.
Proof.
  intros Hab Hm.
  assert (dom m ⊆ (list_to_set (seqZ a (b - a)) : gset Z)) as Hsub.
  { intros k [v Hk]%elem_of_dom. apply elem_of_list_to_set, elem_of_seqZ.
    apply Hm in Hk. lia. }
  apply subseteq_size in Hsub.
  rewrite size_dom, size_list_to_set, length_seqZ in Hsub by apply NoDup_seqZ.
  lia.
Qed.

Lemma size_inflight c s :
  (∀ x, is_Some (inflight s !! x) → x ∈ allRequests c) →
  (size (inflight s) ≤ FLAGS_nireq c + 1)%nat.
Proof.
  intros Hknown.
  assert (dom (inflight s) ⊆ (list_to_set (allRequests c) : gset Slot)) as Hsub.
  { intros x Hx%elem_of_dom. by apply elem_of_list_to_set, Hknown. }
  apply subseteq_size in Hsub.
  rewrite size_dom, size_list_to_set in Hsub by apply NoDup_allRequests.
  unfold allRequests in Hsub. rewrite length_app, !length_modeRequests in Hsub. lia.
Qed.

(** ** The error slot along a run *)




Lemma terminated_stuck c ev s : terminated (pc s) = true → step c ev s = None.
Proof.
  intros Ht. destruct ev as [i | x o |]; simpl.
  - unfold main_step. by destruct (pc s).
  - unfold completion_callback. by rewrite Ht.
  - unfold callback_proceed. by rewrite Ht.
Qed.

(** ** Concrete runs are reachable *)

Lemma reachable_state_after c tr :
  is_Some (run c tr (init c)) → reachable c (state_after c tr).
Proof.
  intros [s Hs]. exists tr. unfold state_after. by rewrite Hs.
Qed.

(** * The claims *)

(** ** C1: in-order emission *)

(** C1, the failing run.  Every submitted frame should be handed to the
    consumer.  Here two frames are submitted, Tab is pressed after frame
    0 and the input ends: the break test passes, main returns 0, and the
    consumer has seen frame 0 only. *)
Lemma lost_frame_after_switch :
  ∃ s, run (demo 2) (switch_then_eof ++ [Main no_input]) (init (demo 2)) = Some s
       ∧ pc s = Finished Exhausted
       ∧ nextFrameId s = 2
       ∧ (shown s).*1 = [0]
       ∧ (shown s).*1 ≠ seqZ 0 2.
Proof.
  eexists. split; [vm_compute; reflexivity |].
  vm_compute. split_and!; try reflexivity. discriminate.
Qed.

(** ** C2: mode switch *)

(** C2 (amended).  A mode switch flips the flag first and touches
    nothing else; the control thread then stays in the Wait, starting no
    request, and leaves it only when no request of the pool of the new
    mode is running, refilling emptyRequests with exactly that pool. *)
Theorem mode_switch_waits_for_new_pool c s e s' :
  step c e s = Some s' →
  (pc s ≠ SwitchWait → pc s' = SwitchWait →
     isUserSpecifiedMode s' = negb (isUserSpecifiedMode s)
     ∧ inflight s' = inflight s
     ∧ emptyRequests s' = emptyRequests s
     ∧ nextFrameId s' = nextFrameId s)
  ∧ (pc s = SwitchWait →
     isUserSpecifiedMode s' = isUserSpecifiedMode s
     ∧ nextFrameId s' = nextFrameId s
     ∧ (pc s' = SwitchWait
        ∨ (pc s' = LoopTop
           ∧ (∀ x, x ∈ modeRequests c (isUserSpecifiedMode s) → inflight s !! x = None)
           ∧ emptyRequests s' = modeRequests c (isUserSpecifiedMode s')
           ∧ inflight s' = inflight s))).
Proof.
  intros Hstep.
  destruct s as [p m er comp nf ns ce co inf lk sh mc]; simpl in *.
  destruct e as [i | x o |].
  - step_cases Hstep; (split; [intros Hp Hp'; try done | intros Hp; try done]).
    split_and!; try done. right. split_and!; try done.
    match goal with H : requests_ready _ _ = true |- _ =>
      exact (proj1 (requests_ready_spec _ _) H) end.
  - step_cases Hstep; (split; [intros Hp Hp'; try done | intros Hp; subst; auto]).
  - step_cases Hstep; (split; [intros Hp Hp'; try done | intros Hp; subst; auto]).
Qed.

(** C2, counterexample.  After the switch a frame is started on
    minLatencyInferRequest while UserReq 1, submitted in the old mode, is
    still running. *)
Lemma new_mode_submits_while_old_runs :
  ∃ s s' cb,
    run (demo 2) switched_ready (init (demo 2)) = Some s
    ∧ step (demo 2) (Main (frame_in 2)) s = Some s'
    ∧ isUserSpecifiedMode s = false
    ∧ inflight s !! UserReq 1 = Some cb ∧ cbFrameMode cb = true
    ∧ inflight s !! MinLatencyReq = None
    ∧ inflight s' !! MinLatencyReq =
        Some {| cbFrameId := 2; cbFrame := 2; cbStartTime := 2; cbFrameMode := false |}
    ∧ inflight s' !! UserReq 1 = Some cb.
Proof.
  eexists _, _, _. split; [vm_compute; reflexivity |].
  split; [vm_compute; reflexivity |].
  vm_compute. split_and!; reflexivity.
Qed.

(** C2, on a concrete run: the step that ends the Wait after Tab. *)
Lemma mode_switch_waits_for_new_pool_witness :
  isUserSpecifiedMode (state_after (demo 2) switched)
  = isUserSpecifiedMode (state_after (demo 2) tab_pressed)
  ∧ nextFrameId (state_after (demo 2) switched)
    = nextFrameId (state_after (demo 2) tab_pressed)
  ∧ (pc (state_after (demo 2) switched) = SwitchWait
     ∨ (pc (state_after (demo 2) switched) = LoopTop
        ∧ (∀ x, x ∈ modeRequests (demo 2)
                      (isUserSpecifiedMode (state_after (demo 2) tab_pressed)) →
                inflight (state_after (demo 2) tab_pressed) !! x = None)
        ∧ emptyRequests (state_after (demo 2) switched)
          = modeRequests (demo 2) (isUserSpecifiedMode (state_after (demo 2) switched))
        ∧ inflight (state_after (demo 2) switched)
          = inflight (state_after (demo 2) tab_pressed))).
Proof.
  refine (proj2 (mode_switch_waits_for_new_pool (demo 2)
                   (state_after (demo 2) tab_pressed) (Main no_input)
                   (state_after (demo 2) switched) _) _).
  - vm_compute; reflexivity.
  - vm_compute; reflexivity.
Defined.

(** ** C3: shutdown *)

(** C3, the failing run.  Every running request should be waited for
    before main returns.  Here main returns 0 while UserReq 2, started
    before the switch, is running with its callback pending. *)
Lemma shutdown_leaves_old_pool_running :
  ∃ s cb, run (demo 3) switch_then_quit (init (demo 3)) = Some s
          ∧ pc s = Finished UserQuit
          ∧ inflight s !! UserReq 2 = Some cb.
Proof.
  eexists _, _. split; [vm_compute; reflexivity |].
  vm_compute. split; reflexivity.
Qed.

(** The other way out of the loop: a callback failure is rethrown, the
    outer handler returns 1 without reaching the final Wait, and UserReq 0
    is left running. *)
Lemma rethrow_skips_final_wait :
  ∃ s cb, run (demo 2) (one_failure ++ [Main no_input]) (init (demo 2)) = Some s
          ∧ pc s = Thrown (CallbackFailure 7)
          ∧ inflight s !! UserReq 0 = Some cb.
Proof.
  eexists _, _. split; [vm_compute; reflexivity |].
  vm_compute. split; reflexivity.
Qed.

(** ** C4: no request started twice *)

(** C4.  A request in emptyRequests is never running, emptyRequests
    holds no request twice, and a step that starts a request takes it
    from the front of emptyRequests while it is not running. *)
Theorem no_concurrent_resubmission c s :
  reachable c s →
  NoDup (emptyRequests s)
  ∧ (∀ x, x ∈ emptyRequests s → inflight s !! x = None)
  ∧ (∀ i s', main_step c i s = Some s' → nextFrameId s' ≠ nextFrameId s →
      ∃ x, emptyRequests s = (x :: emptyRequests s')
           ∧ inflight s !! x = None
           ∧ is_Some (inflight s' !! x)
           ∧ (x ∉ emptyRequests s')
           ∧ (∀ y, y ≠ x → inflight s' !! y = inflight s !! y)).
Proof.
  intros Hinv%invariant_reachable.
  destruct (inv_slots _ _ Hinv) as [Hnd Hidle _ _].
  split_and!; [done | done |].
  intros i s' Hstep Hnf.
  destruct s as [p m er comp nf ns ce co inf lk sh mc]; simpl in *.
  step_cases Hstep; try lia.
  match goal with |- ∃ x, ?y :: _ = _ ∧ _ => exists y end.
  apply NoDup_cons in Hnd as [Hnotin _].
  split_and!; [done | | | done |].
  - apply Hidle. by left.
  - rewrite lookup_insert_eq. eauto.
  - intros y Hy. by rewrite lookup_insert_ne.
Qed.

(** C4, on a concrete run: the step that starts frame 1. *)
Lemma no_concurrent_resubmission_witness :
  ∃ x, emptyRequests (state_after (demo 2) second_ready)
       = (x :: emptyRequests (state_after (demo 2) two_started))
       ∧ inflight (state_after (demo 2) second_ready) !! x = None
       ∧ is_Some (inflight (state_after (demo 2) two_started) !! x)
       ∧ (x ∉ emptyRequests (state_after (demo 2) two_started))
       ∧ (∀ y, y ≠ x →
            inflight (state_after (demo 2) two_started) !! y
            = inflight (state_after (demo 2) second_ready) !! y).
Proof.
  refine (proj2 (proj2 (no_concurrent_resubmission (demo 2)
                          (state_after (demo 2) second_ready) _))
            (frame_in 1) (state_after (demo 2) two_started) _ _).
  - apply reachable_state_after; vm_compute; eauto.
  - vm_compute; reflexivity.
  - vm_compute. discriminate.
Defined.

(** ** C5: callback failures *)

(** C5, the failing run.  A captured failure should be raised again on
    the control thread and end the run.  Here the callback of UserReq 1
    throws after the loop was left with Esc: the failure is captured,
    the final Wait returns, main returns 0 and nothing runs any more. *)
Lemma failure_after_quit_is_dropped :
  ∃ s, run (demo 2) failure_after_quit (init (demo 2)) = Some s
       ∧ pc s = Finished UserQuit
       ∧ callbackException s = Some 7%nat
       ∧ ∀ ev, step (demo 2) ev s = None.
Proof.
  eexists. split; [vm_compute; reflexivity |].
  split; [vm_compute; reflexivity |].
  split; [vm_compute; reflexivity |].
  intros ev. by apply terminated_stuck.
Qed.

(** ** C6: the completion callback *)

(** C6 (amended).  A completion callback whose extraction does not throw
    stores the result under the frame id captured at submission, with
    isSameMode comparing the captured mode to the flag as read at line
    490.  It then reads the flag again at line 493: when the captured
    mode differs it returns and emptyRequests is as it was; when they
    are equal its next statement appends the request to emptyRequests.
    A callback whose extraction throws stores nothing and releases
    nothing.  When the callback runs undisturbed, the request is back in
    emptyRequests exactly when the captured mode is the active one. *)
Theorem callback_stores_and_releases c s x cb :
  reachable c s → inflight s !! x = Some cb →
  (∀ s', step c (Completion x Extracted) s = Some s' →
     completedRequestResults s' !! cbFrameId cb =
       Some {| frame := cbFrame cb; requestStartTime := cbStartTime cb;
               isSameMode := eqb (cbFrameMode cb) (isUserSpecifiedMode s) |}
     ∧ emptyRequests s' = emptyRequests s
     ∧ inflight s' = inflight s
     ∧ callbackLock s' = Some (x, AtTest))
  ∧ (∀ s', callbackLock s = Some (x, AtTest) → step c Proceed s = Some s' →
     completedRequestResults s' = completedRequestResults s
     ∧ emptyRequests s' = emptyRequests s
     ∧ (x ∉ emptyRequests s')
     ∧ (cbFrameMode cb = isUserSpecifiedMode s →
        callbackLock s' = Some (x, AtPush) ∧ inflight s' = inflight s)
     ∧ (cbFrameMode cb ≠ isUserSpecifiedMode s →
        callbackLock s' = None ∧ inflight s' = delete x (inflight s)))
  ∧ (∀ s', callbackLock s = Some (x, AtPush) → step c Proceed s = Some s' →
     completedRequestResults s' = completedRequestResults s
     ∧ emptyRequests s' = emptyRequests s ++ [x]
     ∧ (x ∉ emptyRequests s)
     ∧ callbackLock s' = None
     ∧ inflight s' = delete x (inflight s))
  ∧ (∀ e s', step c (Completion x (Throws e)) s = Some s' →
     completedRequestResults s' = completedRequestResults s
     ∧ completedRequestResults s' !! cbFrameId cb = None
     ∧ emptyRequests s' = emptyRequests s
     ∧ (x ∉ emptyRequests s')
     ∧ callbackLock s' = None
     ∧ inflight s' = delete x (inflight s))
  ∧ (∀ s', run c (completes x) s = Some s' →
     cbFrameMode cb = isUserSpecifiedMode s
     ∧ emptyRequests s' = emptyRequests s ++ [x]
     ∧ inflight s' = delete x (inflight s))
  ∧ (∀ s', run c (completes_stale x) s = Some s' → callbackLock s' = None →
     cbFrameMode cb ≠ isUserSpecifiedMode s
     ∧ emptyRequests s' = emptyRequests s
     ∧ inflight s' = delete x (inflight s))
  ∧ (terminated (pc s) = false →
     match callbackLock s with
     | None => ∀ o, is_Some (step c (Completion x o) s)
     | Some _ => is_Some (step c Proceed s)
     end).
Proof.
  intros Hinv%invariant_reachable Hx.
  pose proof (sq_fresh _ (inv_seq _ _ Hinv) _ _ Hx) as Hfresh.
  pose proof (so_lock _ _ (inv_slots _ _ Hinv)) as Hlock.
  assert (x ∉ emptyRequests s) as Hnotin.
  { intros Hin. apply (so_idle _ _ (inv_slots _ _ Hinv)) in Hin. congruence. }
  split_and!.
  - intros s' Hstep. simpl in Hstep. unfold completion_callback in Hstep.
    destruct (terminated (pc s)); [done |].
    destruct (callbackLock s) eqn:Hlk; [done |]. rewrite Hx in Hstep.
    simplify_eq. simpl.
    rewrite map_insert_new_fresh by (by apply Hfresh). by rewrite lookup_insert_eq.
  - intros s' Hlk Hstep. simpl in Hstep. unfold callback_proceed in Hstep.
    destruct (terminated (pc s)); [done |]. rewrite Hlk, Hx in Hstep.
    simplify_eq. unfold callback_test.
    destruct (eqb (isUserSpecifiedMode s) (cbFrameMode cb)) eqn:E; simpl.
    + apply eqb_prop in E. split_and!; first [done | congruence].
    + apply eqb_false_iff in E. split_and!; first [done | congruence].
  - intros s' Hlk Hstep. simpl in Hstep. unfold callback_proceed in Hstep.
    destruct (terminated (pc s)); [done |]. rewrite Hlk in Hstep.
    by simplify_eq.
  - intros e s' Hstep. simpl in Hstep. unfold completion_callback in Hstep.
    destruct (terminated (pc s)); [done |].
    destruct (callbackLock s) eqn:Hlk; [done |]. rewrite Hx in Hstep.
    simplify_eq. simpl. split_and!; try done. by apply Hfresh.
  - intros s' Hrun. clear Hfresh Hlock Hinv.
    destruct s as [p m er comp nf ns ce co inf lk sh mc]; simpl in *.
    step_cases Hrun.
    match goal with H : eqb _ _ = true |- _ => apply eqb_prop in H end. done.
  - intros s' Hrun Hfree. clear Hfresh Hlock Hinv.
    destruct s as [p m er comp nf ns ce co inf lk sh mc]; simpl in *.
    step_cases Hrun.
    match goal with H : eqb _ _ = false |- _ => apply eqb_false_iff in H end.
    split_and!; first [done | congruence].
  - intros Ht. destruct (callbackLock s) as [[y p] |] eqn:Hlk.
    + simpl. unfold callback_proceed. rewrite Ht, Hlk.
      destruct p; [| eauto]. destruct (Hlock _ _ eq_refl) as [cb' ->]. eauto.
    + intros o. simpl. unfold completion_callback. rewrite Ht, Hlk, Hx. eauto.
Qed.

(** C6, counterexample.  The callback of UserReq 1 throws while the
    mode is the one it was submitted in: no result is stored under its
    frame id and the request is not back in emptyRequests. *)
Lemma throwing_callback_stores_nothing :
  ∃ s s' cb,
    run (demo 2) two_started (init (demo 2)) = Some s
    ∧ inflight s !! UserReq 1 = Some cb
    ∧ cbFrameMode cb = isUserSpecifiedMode s
    ∧ step (demo 2) (Completion (UserReq 1) (Throws 7)) s = Some s'
    ∧ completedRequestResults s' !! cbFrameId cb = None
    ∧ (UserReq 1 ∉ emptyRequests s')
    ∧ inflight s' !! UserReq 1 = None
    ∧ callbackLock s' = None.
Proof.
  eexists _, _, _. split; [vm_compute; reflexivity |].
  split; [vm_compute; reflexivity |].
  split; [vm_compute; reflexivity |].
  split; [vm_compute; reflexivity |].
  vm_compute. split_and!; try reflexivity.
  intros Hin. inversion Hin.
Qed.

(** C6, on a concrete run: frame 1, submitted in user-specified mode,
    completes after the switch. *)
Lemma callback_stores_and_releases_witness :
  completedRequestResults
    (state_after (demo 2) (switched ++ [Completion (UserReq 1) Extracted])) !! 1
  = Some {| frame := 1; requestStartTime := 1;
            isSameMode := eqb true (isUserSpecifiedMode (state_after (demo 2) switched)) |}
  ∧ emptyRequests (state_after (demo 2) (switched ++ [Completion (UserReq 1) Extracted]))
    = emptyRequests (state_after (demo 2) switched)
  ∧ inflight (state_after (demo 2) (switched ++ [Completion (UserReq 1) Extracted]))
    = inflight (state_after (demo 2) switched)
  ∧ callbackLock (state_after (demo 2) (switched ++ [Completion (UserReq 1) Extracted]))
    = Some (UserReq 1, AtTest).
Proof.
  refine (proj1 (callback_stores_and_releases (demo 2)
                   (state_after (demo 2) switched)
                   (UserReq 1)
                   {| cbFrameId := 1; cbFrame := 1; cbStartTime := 1; cbFrameMode := true |}
                   _ _)
            (state_after (demo 2) (switched ++ [Completion (UserReq 1) Extracted])) _).
  - apply reachable_state_after; vm_compute; eauto.
  - vm_compute; reflexivity.
  - vm_compute; reflexivity.
Defined.

(** The two reads of the flag and the push are separate steps of the
    callback.  With Tab between the test of line 493 and line 494 the
    request of the old mode lands in the deque of the new one: the
    result was stored with isSameMode set, and emptyRequests holds two
    requests in MIN_LATENCY mode. *)
Lemma push_after_switch :
  ∃ s, run (demo 2) raced_push (init (demo 2)) = Some s
       ∧ isUserSpecifiedMode s = false
       ∧ emptyRequests s = [MinLatencyReq; UserReq 1]
       ∧ completedRequestResults s !! 1
         = Some {| frame := 1; requestStartTime := 1; isSameMode := true |}.
Proof.
  eexists. split; [vm_compute; reflexivity |].
  vm_compute. split_and!; reflexivity.
Qed.

(** ** C7: leaving the loop *)

(** C7, the failing run.  The loop should not end while a submitted
    frame has not been shown.  Here the break test passes while frame 1,
    started on UserReq 1 before the switch, is running and not shown. *)
Lemma break_with_frame_pending :
  ∃ s cb, run (demo 2) switch_then_eof (init (demo 2)) = Some s
          ∧ pc s = Exited Exhausted
          ∧ inflight s !! UserReq 1 = Some cb
          ∧ cbFrameId cb = 1
          ∧ nextFrameIdToShow s = 1.
Proof.
  eexists _, _. split; [vm_compute; reflexivity |].
  vm_compute. split_and!; reflexivity.
Qed.

(** ** C8: buffered results *)

(** C8 (amended).  The completed results waiting in the map are at most
    the ids assigned minus the results shown; what the pools bound is the
    number of running requests, at most FLAGS_nireq + 1. *)
Theorem completed_buffer_bound c s :
  reachable c s →
  Z.of_nat (size (completedRequestResults s))
    ≤ nextFrameId s - Z.of_nat (length (shown s))
  ∧ (size (inflight s) ≤ FLAGS_nireq c + 1)%nat.
Proof.
  intros Hinv%invariant_reachable.
  destruct Hinv as [Hsl Hsq _]. split.
  - pose proof (sq_range _ Hsq) as Hr.
    assert (length (shown s) = Z.to_nat (nextFrameIdToShow s)) as ->.
    { rewrite <- (length_fmap fst), (sq_shown _ Hsq). apply length_seqZ. }
    rewrite Z2Nat.id by lia.
    apply size_keys_between.
    + unfold floor in Hr. destruct (pc s) as [| | [r|] | | | |]; simpl in Hr; lia.
    + intros k v Hk. apply (sq_completed _ Hsq) in Hk. unfold floor in Hk.
      destruct (pc s) as [| | [r|] | | | |]; simpl in Hk; lia.
  - apply (size_inflight c). intros x Hx. apply (so_known _ _ Hsl). by right.
Qed.

(** C8, counterexample.  Four ids assigned, none shown, and the two
    pools hold three requests. *)
Lemma pending_exceeds_capacity :
  ∃ s, run (demo 2) head_of_line (init (demo 2)) = Some s
       ∧ nextFrameId s - Z.of_nat (length (shown s)) = 4
       ∧ Z.of_nat (FLAGS_nireq (demo 2)) + 1 = 3.
Proof.
  eexists. split; [vm_compute; reflexivity |].
  vm_compute. split; reflexivity.
Qed.

(** C8, on a concrete run. *)
Lemma completed_buffer_bound_witness :
  Z.of_nat (size (completedRequestResults (state_after (demo 2) head_of_line)))
    ≤ nextFrameId (state_after (demo 2) head_of_line)
      - Z.of_nat (length (shown (state_after (demo 2) head_of_line)))
  ∧ (size (inflight (state_after (demo 2) head_of_line)) ≤ FLAGS_nireq (demo 2) + 1)%nat.
Proof.
  apply completed_buffer_bound. apply reachable_state_after; vm_compute; eauto.
Defined.

(** ** C9: results of the other mode *)



(** ** C10: when the mode can change *)

(** C10.  The flag isUserSpecifiedMode changes only in a step of the
    control thread that has just shown a result, with display enabled
    and Tab pressed; under -no_show it keeps its initial value. *)
Theorem mode_switch_only_when_shown c s :
  reachable c s →
  (FLAGS_no_show c = true → isUserSpecifiedMode s = true)
  ∧ ∀ e s', step c e s = Some s' →
      isUserSpecifiedMode s' ≠ isUserSpecifiedMode s →
      FLAGS_no_show c = false
      ∧ ∃ i r, e = Main i ∧ pc s = Body (Some r) ∧ key i = 9
               ∧ shown s' = shown s ++ [(nextFrameIdToShow s, r)].
Proof.
  intros Hinv%invariant_reachable. split.
  - intros Hns. by apply (ob_noshow _ _ (inv_obs _ _ Hinv)).
  - intros e s' Hstep Hmode.
    destruct s as [p m er comp nf ns ce co inf lk sh mc]; simpl in *.
    destruct e as [i | x o |]; step_cases Hstep; try done.
    all: split; [done |]; eexists _, _; split_and!; try done.
    all: match goal with H : is_tab_key _ = true |- _ =>
           unfold is_tab_key in H; apply Z.eqb_eq in H; exact H end.
Qed.

(** C10, on a concrete run: the step that shows frame 0 with Tab
    pressed. *)
Lemma mode_switch_only_when_shown_witness :
  FLAGS_no_show (demo 2) = false
  ∧ ∃ i r, Main (key_in 9) = Main i
           ∧ pc (state_after (demo 2) first_in_hand) = Body (Some r)
           ∧ key i = 9
           ∧ shown (state_after (demo 2) tab_pressed)
             = shown (state_after (demo 2) first_in_hand)
               ++ [(nextFrameIdToShow (state_after (demo 2) first_in_hand), r)].
Proof.
  refine (proj2 (mode_switch_only_when_shown (demo 2)
                   (state_after (demo 2) first_in_hand) _)
            (Main (key_in 9)) (state_after (demo 2) tab_pressed) _ _).
  - apply reachable_state_after; vm_compute; eauto.
  - vm_compute; reflexivity.
  - vm_compute. discriminate.
Defined.

(** * Further properties of the scheduler *)

(** ** Frames in, frames out *)

Lemma frames_read_snoc c tr e s0 s :
  run c tr s0 = Some s → is_Some (step c e s) →
  frames_read c (tr ++ [e]) s0 = frames_read c tr s0 ++ started_by e s.
Proof.
  revert s0. induction tr as [| e0 tr IH]; intros s0 Hrun [s' Hstep]; simpl in *.
  - simplify_eq. rewrite Hstep. by rewrite app_nil_r.
  - destruct (step c e0 s0) as [s1 |]; [| done].
    rewrite (IH s1 Hrun) by eauto. by rewrite app_assoc.
Qed.

Lemma started_by_step c e s s' :
  step c e s = Some s' →
  nextFrameId s' = nextFrameId s + Z.of_nat (length (started_by e s)).
Proof.
  intros Hstep. destruct s as [p m er comp nf ns ce co inf lk sh mc].
  destruct e as [i | x o |]; simpl in *.
  - unfold started_by; simpl. step_cases Hstep; simpl; try lia.
  - step_cases Hstep; simpl; lia.
  - step_cases Hstep; simpl; lia.
Qed.

Lemma length_shown s : seq_ok s → length (shown s) = Z.to_nat (nextFrameIdToShow s).
Proof.
  intros Hsq. rewrite <- (length_fmap fst), (sq_shown _ Hsq). apply length_seqZ.
Qed.

Lemma payload_ok_step c e l s s' :
  seq_ok s → payload_ok l s → step c e s = Some s' →
  payload_ok (l ++ started_by e s) s'.
Proof.
  intros Hsq [Hlen Hcomp Hinf Hhand Hshown] Hstep.
  pose proof (length_shown s Hsq) as Hls.
  pose proof (sq_range _ Hsq) as Hrange.
  pose proof (sq_completed _ Hsq) as Hck.
  destruct s as [p m er comp nf ns ce co inf lk sh mc]; unfold floor in *; simpl in *.
  destruct e as [i | x o |].
  - unfold started_by; simpl.
    step_cases Hstep; rewrite ?app_nil_r; split; simpl; try done; eauto.
    all: try (rewrite fmap_app, Hshown, length_app, Nat.add_1_r; simpl;
              erewrite take_S_r by (rewrite Hls; by apply Hhand); done).
    + intros k r0 [_ Hk]%lookup_delete_Some. by apply Hcomp.
    + intros r0 [= <-]. by apply Hcomp.
    + rewrite length_app. simpl. lia.
    + intros k r Hk. apply lookup_app_l_Some. by apply Hcomp.
    + intros x cb [[<- <-] | [_ Hl]]%lookup_insert_Some; simpl.
      * rewrite Nat2Z.id. by apply list_lookup_middle.
      * apply lookup_app_l_Some. by eapply Hinf.
    + rewrite take_app_le; [done |]. lia.
  - rewrite app_nil_r.
    step_cases Hstep; split; simpl; try done; eauto.
    all: try (intros x0 cb [_ Hl]%lookup_delete_Some; exact (Hinf _ _ Hl)).
    all: intros k r; unfold map_insert_new; case_match; [apply Hcomp |];
      intros [[<- <-] | [_ Hl]]%lookup_insert_Some; [| by apply Hcomp];
      match goal with H : _ !! _ = Some ?cb |- _ !! Z.to_nat (cbFrameId ?cb) = _ =>
        apply Hinf in H; exact H end.
  - rewrite app_nil_r.
    step_cases Hstep; split; simpl; try done; eauto.
    all: try (intros x0 cb [_ Hl]%lookup_delete_Some; exact (Hinf _ _ Hl)).
Qed.

Lemma payload_ok_run c tr s :
  run c tr (init c) = Some s → payload_ok (frames_read c tr (init c)) s.
Proof.
  revert s. induction tr as [| e tr IH] using rev_ind; intros s Hrun.
  - simpl in Hrun. simplify_eq. split; simpl; try done.
  - rewrite run_snoc in Hrun.
    destruct (run c tr (init c)) as [s0 |] eqn:Hrun0; [| done].
    rewrite (frames_read_snoc c tr e (init c) s0) by eauto.
    eapply payload_ok_step; [| by apply IH | done].
    apply (inv_seq c). apply invariant_reachable. by exists tr.
Qed.

(** X1.  The results come out in the order the frames went in: the
    k-th result shown is numbered k and carries the frame and the start
    time of the k-th request started, whatever the order and the timing
    of the callbacks and of the mode switches; no frame is shown twice
    or out of turn. *)
Theorem shown_frames_in_read_order c tr s :
  run c tr (init c) = Some s →
  (shown s).*1 = seqZ 0 (Z.of_nat (length (shown s)))
  ∧ (λ p, (frame p.2, requestStartTime p.2)) <$> shown s
    = take (length (shown s)) (frames_read c tr (init c))
  ∧ Z.of_nat (length (frames_read c tr (init c))) = nextFrameId s.
Proof.
  intros Hrun. destruct (payload_ok_run c tr s Hrun) as [Hlen _ _ _ Hshown].
  assert (seq_ok s) as Hsq.
  { apply (inv_seq c). apply invariant_reachable. by exists tr. }
  split_and!; [| exact Hshown | exact Hlen].
  rewrite (length_shown s Hsq), Z2Nat.id by apply (sq_range _ Hsq).
  apply (sq_shown _ Hsq).
Qed.

(** X1, on a concrete run: frame 1 completes before frame 0, frame 0 is
    shown first. *)
Lemma shown_frames_in_read_order_witness :
  (shown (state_after (demo 2) out_of_order)).*1 = [0; 1]
  ∧ (λ p, (frame p.2, requestStartTime p.2))
      <$> shown (state_after (demo 2) out_of_order)
    = [(10%nat, 10%nat); (11%nat, 11%nat)].
Proof.
  destruct (shown_frames_in_read_order (demo 2) out_of_order
              (state_after (demo 2) out_of_order)) as (Hid & Hpay & _).
  - vm_compute; reflexivity.
  - split; [exact Hid | exact Hpay].
Defined.

(** ** Runs without display *)

Lemma break_condition_spec c s :
  break_condition c s = true ↔
  capOpened s = false ∧ completedRequestResults s = ∅
  ∧ length (emptyRequests s) = length (modeRequests c (isUserSpecifiedMode s)).
Proof.
  unfold break_condition. rewrite length_modeRequests.
  rewrite !andb_true_iff, orb_true_iff, !andb_true_iff, negb_true_iff,
    bool_decide_eq_true, !Nat.eqb_eq.
  destruct (isUserSpecifiedMode s); simpl; intuition congruence.
Qed.

Lemma headless_ok_init c : headless_ok c (init c).
Proof.
  split; simpl.
  - intros x cb H. by rewrite lookup_empty in H.
  - intros _. rewrite map_size_empty.
    change (length (modeRequests c true) + 0 = FLAGS_nireq c)%nat.
    rewrite length_modeRequests. lia.
  - done.
  - intros why [H | H]; discriminate.
Qed.

Lemma headless_ok_step c e s s' :
  FLAGS_no_show c = true → invariant c s → headless_ok c s →
  step c e s = Some s' → headless_ok c s'.
Proof.
  intros Hns Hinv [Hmode Hfull Hshort Hdone] Hstep.
  destruct (ob_noshow _ _ (inv_obs _ _ Hinv) Hns) as [Hm Hpc].
  pose proof (inv_seq _ _ Hinv) as Hsq.
  pose proof (so_idle _ _ (inv_slots _ _ Hinv)) as Hidle.
  pose proof (so_lock _ _ (inv_slots _ _ Hinv)) as Hlock.
  destruct s as [p m er comp nf ns ce co inf lk sh mc]; simpl in *. subst m.
  destruct e as [i | x o |].
  - step_cases Hstep; split; simpl; try done; try congruence; eauto.
    all: try (intros why [H | H]; discriminate).
    + (* the break test fires *)
      intros why [[= <-] | [=]].
      match goal with H : break_condition _ _ = true |- _ =>
        apply break_condition_spec in H as (_ & Hcomp & Hlen) end.
      rewrite length_modeRequests in Hlen. simpl in Hcomp, Hlen.
      assert (ce = None) as ->.
      { destruct ce as [n|]; [| done]. specialize (Hshort ltac:(done)). lia. }
      assert (inf = ∅) as ->.
      { apply map_size_empty_iff. specialize (Hfull eq_refl). lia. }
      split_and!; try done.
      pose proof (sq_range _ Hsq) as Hr. unfold floor in Hr. simpl in Hr.
      destruct (decide (ns = nf)) as [? | Hne]; [done |].
      destruct (sq_all _ Hsq eq_refl ns) as [[r Hr'] | (x & cb & Hx & _)];
        unfold floor; simpl in *; [lia | |].
      * rewrite Hcomp, lookup_empty in Hr'. done.
      * rewrite lookup_empty in Hx. done.
    + (* a request is started *)
      intros x cb [[<- <-] | [_ Hl]]%lookup_insert_Some; [done | by eapply Hmode].
    + intros Hce. rewrite map_size_insert_None by (apply Hidle; by left).
      specialize (Hfull Hce). simpl in Hfull. lia.
    + intros Hce. rewrite map_size_insert_None by (apply Hidle; by left).
      specialize (Hshort Hce). simpl in Hshort. lia.
    + (* the final Wait returns *)
      intros why' [[=] | [= <-]]. apply Hdone. by left.
  - step_cases Hstep; split; simpl; try done; try congruence; eauto.
    all: match goal with H : _ !! _ = Some _ |- _ =>
           pose proof (Hmode _ _ H) as Htrue;
           pose proof (map_size_ne_0_lookup_2 _ _ (mk_is_Some _ _ H)) as Hpos;
           pose proof (map_size_delete_Some _ _ (mk_is_Some _ _ H)) as Hdel;
           rename H into Hx end.
    all: try congruence.
    all: try (intros x0 cb [_ Hl]%lookup_delete_Some; by eapply Hmode).
    all: try (intros why Hwhy; destruct (Hdone why Hwhy) as (_ & Hempty & _);
              rewrite Hempty, lookup_empty in Hx; done).
    all: rewrite ?length_app, ?Hdel; simpl; intros Hce.
    + specialize (Hshort ltac:(done)). lia.
    + specialize (Hfull eq_refl). lia.
  - step_cases Hstep; split; simpl; try done; try congruence; eauto.
    all: destruct (Hlock _ _ eq_refl) as [cb0 Hx];
      pose proof (Hmode _ _ Hx) as Htrue;
      pose proof (map_size_ne_0_lookup_2 _ _ (mk_is_Some _ _ Hx)) as Hpos;
      pose proof (map_size_delete_Some _ _ (mk_is_Some _ _ Hx)) as Hdel.
    all: try (simplify_eq; congruence).
    all: try (intros x0 cb [_ Hl]%lookup_delete_Some; by eapply Hmode).
    all: try (intros why Hwhy; destruct (Hdone why Hwhy) as (_ & Hempty & _);
              rewrite Hempty, lookup_empty in Hx; done).
    all: rewrite ?length_app, ?Hdel; simpl; intros Hce.
    + specialize (Hfull Hce). lia.
    + specialize (Hshort Hce). lia.
Qed.

Lemma headless_reachable c s :
  FLAGS_no_show c = true → reachable c s → headless_ok c s.
Proof.
  intros Hns. revert s. apply reachable_ind'.
  - apply headless_ok_init.
  - intros e s s' Hr Hh Hstep.
    eapply headless_ok_step; [done | by apply invariant_reachable | done | done].
Qed.

(** X2.  With -no_show, whenever main returns 0 the loop was left
    through its break test, every frame id assigned has been shown, in
    order and once, no request is running, no result is left in the map
    and no callback has failed. *)
Theorem headless_run_is_complete c s why :
  FLAGS_no_show c = true → reachable c s → pc s = Finished why →
  why = Exhausted
  ∧ (shown s).*1 = seqZ 0 (nextFrameId s)
  ∧ inflight s = ∅
  ∧ completedRequestResults s = ∅
  ∧ callbackException s = None.
Proof.
  intros Hns Hreach Hpc.
  pose proof (headless_reachable c s Hns Hreach) as Hhl.
  pose proof (invariant_reachable c s Hreach) as Hinv.
  destruct (hl_done _ _ Hhl why) as (-> & Hinf & Hcomp & Hce & Heq); [by right |].
  split_and!; try done.
  rewrite <- Heq. apply (sq_shown _ (inv_seq _ _ Hinv)).
Qed.

(** X2, on a concrete run: one request, one frame, no display. *)
Lemma headless_run_is_complete_witness :
  Exhausted = Exhausted
  ∧ (shown (state_after (headless 1) (single_frame ++ [Main no_input; Main no_input]))).*1
    = seqZ 0 (nextFrameId (state_after (headless 1)
                             (single_frame ++ [Main no_input; Main no_input])))
  ∧ inflight (state_after (headless 1) (single_frame ++ [Main no_input; Main no_input])) = ∅
  ∧ completedRequestResults
      (state_after (headless 1) (single_frame ++ [Main no_input; Main no_input])) = ∅
  ∧ callbackException
      (state_after (headless 1) (single_frame ++ [Main no_input; Main no_input])) = None.
Proof.
  apply (headless_run_is_complete (headless 1) _ Exhausted).
  - reflexivity.
  - apply reachable_state_after; vm_compute; eauto.
  - vm_compute; reflexivity.
Defined.

(** ** Runs without requests, and the wait of line 511 *)

Lemma starved_reachable c s :
  FLAGS_nireq c = 0%nat → reachable c s → starved s.
Proof.
  intros Hn. revert s. apply reachable_ind'.
  - split; simpl; auto. unfold userSpecifiedInferRequests. by rewrite Hn.
  - intros e s s' _ [Hpc Hm He Hi Hl Hc Hx Hcap Hnf Hsh] Hstep.
    destruct s as [p m er comp nf ns ce co inf lk sh mc]; simpl in *. subst.
    destruct e as [i | x o |].
    + destruct Hpc as [-> | [-> | ->]]; vm_compute in Hstep; simplify_eq;
        split; simpl; auto.
    + simpl in Hstep. unfold completion_callback in Hstep. simpl in Hstep.
      rewrite lookup_empty in Hstep. by destruct (terminated p).
    + simpl in Hstep. unfold callback_proceed in Hstep. simpl in Hstep.
      by destruct (terminated p).
Qed.

(** X3.  With -nireq 0 no frame is ever submitted or shown and the loop
    never ends: once the control thread reaches the wait of line 511,
    no step of the run is possible any more. *)
Theorem zero_requests_hang c s :
  FLAGS_nireq c = 0%nat → reachable c s →
  terminated (pc s) = false
  ∧ (∀ why, pc s ≠ Exited why)
  ∧ nextFrameId s = 0
  ∧ shown s = []
  ∧ (pc s = Body None → ∀ e, step c e s = None).
Proof.
  intros Hn Hreach.
  destruct (starved_reachable c s Hn Hreach) as [Hpc Hm He Hi Hl Hc Hx Hcap Hnf Hsh].
  split_and!; try done.
  - by destruct Hpc as [-> | [-> | ->]].
  - intros why. by destruct Hpc as [-> | [-> | ->]].
  - intros Hbody [i | x o |]; simpl.
    + unfold main_step, no_result, must_wait. rewrite Hbody, He, Hx, Hc. done.
    + unfold completion_callback. rewrite Hi, lookup_empty.
      destruct (terminated _); [done |]. by destruct (callbackLock s).
    + unfold callback_proceed. rewrite Hl. by destruct (terminated _).
Qed.

(** X3, on a concrete run: two steps lead into the wait, where neither the
    control thread nor a mutex holder can move. *)
Lemma zero_requests_hang_witness :
  pc (state_after (demo 0) [Main no_input; Main no_input]) = Body None
  ∧ step (demo 0) (Main no_input)
      (state_after (demo 0) [Main no_input; Main no_input]) = None
  ∧ step (demo 0) Proceed
      (state_after (demo 0) [Main no_input; Main no_input]) = None.
Proof.
  assert (Hbody : pc (state_after (demo 0) [Main no_input; Main no_input])
                  = Body None) by (vm_compute; reflexivity).
  assert (Hreach : reachable (demo 0)
                     (state_after (demo 0) [Main no_input; Main no_input]))
    by (apply reachable_state_after; vm_compute; eauto).
  pose proof (proj2 (proj2 (proj2 (proj2 (zero_requests_hang (demo 0)
            (state_after (demo 0) [Main no_input; Main no_input])
            eq_refl Hreach)))) Hbody) as Hstuck.
  exact (conj Hbody (conj (Hstuck _) (Hstuck _))).
Defined.






(** ** The error slot *)



(** * Labels, detections and configuration *)

Lemma int_of_size_small n :
  Z.of_nat n < 2147483648 → int_of_size n = Z.of_nat n.
Proof.
  intros Hn. unfold int_of_size. rewrite Z.mod_small by lia.
  destruct (Z.ltb_spec (Z.of_nat n) 2147483648); lia.
Qed.

Lemma size_t_of_int_nonneg z :
  0 ≤ z ≤ INT_MAX → size_t_of_int z = z.
Proof. unfold size_t_of_int, INT_MAX. intros [? ?]. rewrite Z.mod_small; lia. Qed.

Lemma size_t_of_int_neg z :
  INT_MIN ≤ z < 0 → size_t_of_int z = z + 18446744073709551616.
Proof.
  unfold size_t_of_int, INT_MIN. intros [? ?].
  symmetry. apply (Z.mod_unique_pos _ _ (-1)); lia.
Qed.

(** X6.  After the adjustment the label list is either empty or has one
    entry per class: it is kept when its size is num_classes, gets
    "fake" in front when one label is missing, and is cleared otherwise. *)
Theorem adjusted_labels_match_classes labels num_classes :
  Z.of_nat (length labels) < 2147483648 → INT_MIN < num_classes →
  ∃ l, adjust_labels labels num_classes = Some l
       ∧ (l = [] ∨ Z.of_nat (length l) = num_classes)
       ∧ (Z.of_nat (length labels) = num_classes → l = labels)
       ∧ (Z.of_nat (length labels) = num_classes - 1 → l = "fake"%string :: labels)
       ∧ (Z.of_nat (length labels) ≠ num_classes →
          Z.of_nat (length labels) ≠ num_classes - 1 → l = []).
Proof.
  intros Hlen Hmin. unfold adjust_labels. rewrite int_of_size_small by done.
  destruct (Z.eqb_spec (Z.of_nat (length labels)) num_classes) as [Heq | Hne].
  - exists labels. split_and!; auto with lia.
  - destruct (Z.eqb_spec num_classes INT_MIN) as [? | _]; [lia |].
    destruct (Z.eqb_spec (Z.of_nat (length labels)) (num_classes - 1)) as [Heq | Hne'].
    + eexists. split_and!; try done; try lia. right. simpl. lia.
    + exists []. split_and!; auto with lia.
Qed.

(** X6, on a label file that misses the background class. *)
Lemma adjusted_labels_match_classes_witness :
  ∃ l, adjust_labels ["person"; "car"]%string 3 = Some l
       ∧ (l = [] ∨ Z.of_nat (length l) = 3)
       ∧ (Z.of_nat (length ["person"; "car"]%string) = 3 → l = ["person"; "car"]%string)
       ∧ (Z.of_nat (length ["person"; "car"]%string) = 3 - 1 →
          l = ["fake"; "person"; "car"]%string)
       ∧ (Z.of_nat (length ["person"; "car"]%string) ≠ 3 →
          Z.of_nat (length ["person"; "car"]%string) ≠ 3 - 1 → l = []).
Proof.
  apply (adjusted_labels_match_classes ["person"; "car"]%string 3).
  - simpl. lia.
  - unfold INT_MIN. lia.
Defined.

(** X7.  The name drawn for a detection never reads outside the label
    list.  Once the labels are adjusted, a class id in [0, num_classes)
    is named by the label file when the file has num_classes entries, by
    the file shifted by one when it has num_classes - 1 entries (class 0
    being "fake"), and "label #id" in every other case, negative and
    too large ids included. *)
Theorem label_text_after_adjustment labels num_classes l label :
  Z.of_nat (length labels) < 2147483648 →
  adjust_labels labels num_classes = Some l →
  INT_MIN ≤ label ≤ INT_MAX →
  ∃ t, label_text l label = Some t
       ∧ (0 ≤ label < num_classes → Z.of_nat (length labels) = num_classes →
          labels !! Z.to_nat label = Some t)
       ∧ (0 < label < num_classes → Z.of_nat (length labels) = num_classes - 1 →
          labels !! Z.to_nat (label - 1) = Some t)
       ∧ (label = 0 → Z.of_nat (length labels) = num_classes - 1 → t = "fake"%string)
       ∧ (label < 0 ∨ Z.of_nat (length l) ≤ label → t = "label #" +:+ pretty label).
Proof.
  intros Hlen Hadj Hlabel.
  assert (Z.of_nat (length l) ≤ Z.of_nat (length labels) + 1) as Hl.
  { unfold adjust_labels in Hadj. repeat case_match; simplify_eq; simpl; lia. }
  unfold label_text.
  destruct (Z.ltb_spec (size_t_of_int label) (Z.of_nat (length l))) as [Hin | Hout].
  - (* the id is inside the list *)
    assert (0 ≤ label) as Hpos.
    { destruct (Z_lt_le_dec label 0) as [Hneg | ?]; [| done].
      rewrite size_t_of_int_neg in Hin by lia. unfold INT_MIN in *. lia. }
    rewrite size_t_of_int_nonneg in * by lia.
    destruct (lookup_lt_is_Some_2 l (Z.to_nat label)) as [t Ht]; [lia |].
    exists t. split_and!; [done | | | | lia].
    + intros _ Heq. unfold adjust_labels in Hadj.
      rewrite int_of_size_small, Heq, Z.eqb_refl in Hadj by done. by simplify_eq.
    + intros Hrange Heq. unfold adjust_labels in Hadj.
      rewrite int_of_size_small, Heq in Hadj by done.
      destruct (Z.eqb_spec (num_classes - 1) num_classes); [lia |].
      destruct (Z.eqb_spec num_classes INT_MIN); [done |].
      rewrite Z.eqb_refl in Hadj. simplify_eq.
      replace (Z.to_nat label) with (S (Z.to_nat (label - 1))) in Ht by lia. done.
    + intros -> Heq. unfold adjust_labels in Hadj.
      rewrite int_of_size_small, Heq in Hadj by done.
      destruct (Z.eqb_spec (num_classes - 1) num_classes); [lia |].
      destruct (Z.eqb_spec num_classes INT_MIN); [done |].
      rewrite Z.eqb_refl in Hadj. simplify_eq. simpl in Ht. by simplify_eq.
  - (* the id is outside: negative ids wrap to huge indices *)
    eexists. split; [done |].
    assert (label < 0 ∨ Z.of_nat (length l) ≤ label) as Hcase.
    { destruct (Z_lt_le_dec label 0) as [? | ?]; [by left | right].
      rewrite size_t_of_int_nonneg in Hout by lia. done. }
    split_and!; try done.
    + intros Hrange Heq. unfold adjust_labels in Hadj.
      rewrite int_of_size_small, Heq, Z.eqb_refl in Hadj by done. simplify_eq. lia.
    + intros Hrange Heq. unfold adjust_labels in Hadj.
      rewrite int_of_size_small, Heq in Hadj by done.
      destruct (Z.eqb_spec (num_classes - 1) num_classes); [lia |].
      destruct (Z.eqb_spec num_classes INT_MIN); [done |].
      rewrite Z.eqb_refl in Hadj. simplify_eq. simpl in Hcase. try lia.
    + intros -> Heq. unfold adjust_labels in Hadj.
      rewrite int_of_size_small, Heq in Hadj by done.
      destruct (Z.eqb_spec (num_classes - 1) num_classes); [lia |].
      destruct (Z.eqb_spec num_classes INT_MIN); [done |].
      rewrite Z.eqb_refl in Hadj. simplify_eq.
Qed.

(** X7, on a negative class id. *)
Lemma label_text_after_adjustment_witness :
  ∃ t, label_text ["fake"; "person"; "car"]%string (-1) = Some t
       ∧ (0 ≤ -1 < 3 → Z.of_nat (length ["person"; "car"]%string) = 3 →
          ["person"; "car"]%string !! Z.to_nat (-1) = Some t)
       ∧ (0 < -1 < 3 → Z.of_nat (length ["person"; "car"]%string) = 3 - 1 →
          ["person"; "car"]%string !! Z.to_nat (-1 - 1) = Some t)
       ∧ (-1 = 0 → Z.of_nat (length ["person"; "car"]%string) = 3 - 1 → t = "fake"%string)
       ∧ (-1 < 0 ∨ Z.of_nat (length ["fake"; "person"; "car"]%string) ≤ -1 →
          t = "label #" +:+ pretty (-1)).
Proof.
  apply (label_text_after_adjustment ["person"; "car"]%string 3).
  - simpl. lia.
  - vm_compute; reflexivity.
  - unfold INT_MIN, INT_MAX. lia.
Defined.

Lemma lookup_flat_row {F} (pre : list F) (d : Detection F) post k x :
  flat_row F d !! k = Some x →
  (pre ++ flat_row F d ++ post) !! (length pre + k)%nat = Some x.
Proof.
  intros Hk. rewrite lookup_app_r by lia.
  replace (length pre + k - length pre)%nat with k by lia.
  by apply lookup_app_l_Some.
Qed.

Lemma draw_detections_rows {F} (is_negative above_threshold : F → bool)
    (to_int : F → Z) (times : F → Z → F) width height pre rows post i :
  length pre = (i * 7)%nat →
  draw_detections F is_negative above_threshold to_int times
    (length rows) i 7 width height (pre ++ concat (flat_row F <$> rows) ++ post)
  = Some (box_of F to_int times width height
            <$> List.filter (λ d, above_threshold (det_confidence d))
                  (valid_prefix F is_negative rows)).
Proof.
  revert pre i. induction rows as [| d rows IH]; intros pre i Hpre; [done |].
  cbn [length draw_detections fmap list_fmap concat valid_prefix].
  rewrite <- !Hpre, <- app_assoc.
  rewrite (lookup_flat_row pre d _ 0 (det_image_id d)) by done.
  cbn [mbind option_bind].
  destruct (is_negative (det_image_id d)); [done |].
  rewrite (lookup_flat_row pre d _ 2 (det_confidence d)) by done.
  cbn [mbind option_bind].
  rewrite (lookup_flat_row pre d _ 1 (det_label d)) by done.
  cbn [mbind option_bind].
  rewrite (lookup_flat_row pre d _ 3 (det_xmin d)) by done.
  cbn [mbind option_bind].
  rewrite (lookup_flat_row pre d _ 4 (det_ymin d)) by done.
  cbn [mbind option_bind].
  rewrite (lookup_flat_row pre d _ 5 (det_xmax d)) by done.
  cbn [mbind option_bind].
  rewrite (lookup_flat_row pre d _ 6 (det_ymax d)) by done.
  cbn [mbind option_bind].
  specialize (IH (pre ++ flat_row F d) (S i)).
  rewrite <- app_assoc in IH. rewrite IH by (rewrite length_app; simpl; lia).
  cbn [mbind option_bind List.filter].
  by destruct (above_threshold (det_confidence d)).
Qed.

(** X8.  For a buffer holding maxProposalCount rows of seven floats the
    loop never reads outside the buffer, and it draws, in order, exactly
    the rows whose confidence is above the threshold among the rows that
    come before the first negative image id. *)
Theorem drawn_boxes_are_confident_prefix
    (F : Type) (is_negative above_threshold : F → bool) (to_int : F → Z)
    (times : F → Z → F) (width height : Z) (rows : list (Detection F)) (post : list F) :
  draw_detections F is_negative above_threshold to_int times
    (length rows) 0 7 width height (concat (flat_row F <$> rows) ++ post)
  = Some (box_of F to_int times width height
            <$> List.filter (λ d, above_threshold (det_confidence d))
                  (valid_prefix F is_negative rows)).
Proof.
  apply (draw_detections_rows is_negative above_threshold to_int times
           width height [] rows post 0). done.
Qed.

(** X9.  The shape is accepted exactly when it has four dimensions and
    the last one is 7 as an int; the number of proposals is the third.
    With fewer than four dimensions the reads of lines 261-262 come
    before the size test and fall outside the vector. *)
Theorem output_dims_accepted outputDims :
  (∀ n k, check_output_dims outputDims = Some (DimsAccepted n k) ↔
          k = 7 ∧ ∃ a b c d, outputDims = [a; b; c; d]
                            ∧ n = int_of_size_t c ∧ int_of_size_t d = 7)
  ∧ ((length outputDims < 4)%nat ↔ check_output_dims outputDims = None).
Proof.
  split.
  - intros n k. unfold check_output_dims.
    destruct outputDims as [| a [| b [| c [| d [| e l]]]]]; simpl;
      try (split; [done | intros (_ & ? & ? & ? & ? & ? & _); done ]).
    + destruct (Z.eqb_spec (int_of_size_t d) 7) as [Hd | Hd]; simpl.
      * split.
        -- intros [= <- <-]. split; [done |]. by exists a, b, c, d.
        -- intros (-> & a' & b' & c' & d' & [= <- <- <- <-] & -> & _). by rewrite Hd.
      * split; [done |].
        intros (_ & a' & b' & c' & d' & [= <- <- <- <-] & _ & ?). done.
    + destruct (Z.eqb_spec (int_of_size_t d) 7); simpl;
        (split; [done | intros (_ & ? & ? & ? & ? & ? & _); done ]).
  - unfold check_output_dims.
    destruct outputDims as [| a [| b [| c [| d l]]]]; simpl; split; try done; lia.
Qed.

Lemma lookup_config_insert k v m k' :
  config_insert k v m !! k'
  = match m !! k' with
    | Some v' => Some v'
    | None => if decide (k = k') then Some v else None
    end.
Proof.
  unfold config_insert. destruct (m !! k) as [w |] eqn:Hk.
  - destruct (m !! k') eqn:Hk'; [done |]. case_decide; congruence.
  - destruct (decide (k = k')) as [<- | Hne].
    + by rewrite lookup_insert_eq, Hk.
    + rewrite lookup_insert_ne by done. by destruct (m !! k').
Qed.

Lemma elem_of_snoc_bool (d device : string) seen :
  bool_decide (d ∈ seen ++ [device])
  = bool_decide (d ∈ seen) || bool_decide (device = d).
Proof.
  apply eq_true_iff_eq. rewrite orb_true_iff, !bool_decide_eq_true.
  rewrite elem_of_app, list_elem_of_singleton. intuition congruence.
Qed.

Lemma configs_ok_step FLAGS_d FLAGS_nthreads devices getConfig nstreams seen device st :
  configs_ok FLAGS_d FLAGS_nthreads devices seen nstreams st →
  configs_ok FLAGS_d FLAGS_nthreads devices (seen ++ [device]) nstreams
    (configure_device FLAGS_d FLAGS_nthreads devices getConfig device st).
Proof.
  intros [Hu Hl Hs]. unfold configure_device.
  assert (Hcpu : "CPU" ∉ seen → deviceNstreams st !! "CPU" = nstreams !! "CPU")
    by apply Hs.
  assert (Hgpu : "GPU" ∉ seen → deviceNstreams st !! "GPU" = nstreams !! "GPU")
    by apply Hs.
  split.
  - intros k. unfold expected_user. rewrite !elem_of_snoc_bool.
    destruct (bool_decide_reflect (device = "CPU")) as [-> | Hc];
      [| destruct (bool_decide_reflect (device = "GPU")) as [-> | Hg]]; simpl.
    all: rewrite ?orb_true_r, ?orb_false_r.
    all: destruct (names_multi FLAGS_d) eqn:Hm,
           (bool_decide ("GPU" ∈ devices)) eqn:Hdg,
           (bool_decide ("CPU" ∈ devices)) eqn:Hdc,
           (FLAGS_nthreads =? 0)%N eqn:Hn; simpl.
    all: rewrite ?lookup_config_insert, ?Hu; unfold expected_user, streams_value.
    all: rewrite ?Hm, ?Hdg, ?Hdc, ?Hn.
    all: destruct (bool_decide_reflect ("CPU" ∈ seen)),
           (bool_decide_reflect ("GPU" ∈ seen)); rewrite ?Hcpu, ?Hgpu by done.
    all: destruct k; simpl; repeat case_decide; done.
  - intros k. unfold expected_latency. rewrite !elem_of_snoc_bool.
    destruct (bool_decide_reflect (device = "CPU")) as [-> | Hc];
      [| destruct (bool_decide_reflect (device = "GPU")) as [-> | Hg]]; simpl.
    all: rewrite ?orb_true_r, ?orb_false_r.
    all: rewrite ?lookup_config_insert, ?Hl; unfold expected_latency.
    all: destruct (bool_decide_reflect ("CPU" ∈ seen)),
           (bool_decide_reflect ("GPU" ∈ seen)).
    all: destruct k; simpl; repeat case_decide; done.
  - intros d [Hd Hne]%not_elem_of_app.
    rewrite list_elem_of_singleton in Hne.
    destruct (bool_decide_reflect (device = "CPU")) as [-> | Hc];
      [| destruct (bool_decide_reflect (device = "GPU")) as [-> | Hg]]; simpl.
    all: rewrite ?lookup_insert_ne by done; by apply Hs.
Qed.

Lemma configs_ok_run FLAGS_d FLAGS_nthreads devices getConfig nstreams l :
  configs_ok FLAGS_d FLAGS_nthreads devices l nstreams
    (foldl (λ st device,
              configure_device FLAGS_d FLAGS_nthreads devices getConfig device st)
       {| userSpecifiedConfig := ∅; minLatencyConfig := ∅; deviceNstreams := nstreams |}
       l).
Proof.
  induction l as [| device l IH] using rev_ind.
  - split; simpl; [by intros [] | by intros [] | done].
  - rewrite foldl_snoc. by apply configs_ok_step.
Qed.
(** X10.  The configuration of the user-specified network: threads are
    limited only when -nthreads is not 0; CPU threads are pinned unless
    the device string names MULTI and a GPU is among the devices; the
    GPU is throttled only when the string names MULTI and a CPU is among
    them; the stream counts are the ones given with -nstreams, else
    automatic.  The stream counts the plugins report back do not enter
    it. *)
Theorem user_specified_config_keys FLAGS_d FLAGS_nthreads devices getConfig nstreams :
  let u := userSpecifiedConfig
             (configure FLAGS_d FLAGS_nthreads devices getConfig nstreams) in
  let cpu := bool_decide ("CPU" ∈ devices) in
  let gpu := bool_decide ("GPU" ∈ devices) in
  u !! KEY_CPU_THREADS_NUM
    = (if cpu && negb (FLAGS_nthreads =? 0)%N
       then Some (Text (pretty FLAGS_nthreads)) else None)
  ∧ u !! KEY_CPU_BIND_THREAD
    = (if cpu then Some (if names_multi FLAGS_d && gpu then VALUE_NO else VALUE_YES)
       else None)
  ∧ u !! KEY_CPU_THROUGHPUT_STREAMS
    = (if cpu then Some (streams_value VALUE_CPU_THROUGHPUT_AUTO nstreams "CPU")
       else None)
  ∧ u !! KEY_GPU_THROUGHPUT_STREAMS
    = (if gpu then Some (streams_value VALUE_GPU_THROUGHPUT_AUTO nstreams "GPU")
       else None)
  ∧ u !! KEY_CLDNN_PLUGIN_THROTTLE
    = (if gpu && names_multi FLAGS_d && cpu then Some (Text "1") else None).
Proof.
  pose proof (co_user _ _ _ _ _ _
                (configs_ok_run FLAGS_d FLAGS_nthreads devices getConfig nstreams devices))
    as Hu.
  split_and!; apply Hu.
Qed.

(** X11.  The configuration of the minimum-latency network holds one
    stream for each of CPU and GPU that is among the devices and nothing
    else, whatever the flags say. *)
Theorem min_latency_config_is_one_stream
    FLAGS_d FLAGS_nthreads devices getConfig nstreams :
  minLatencyConfig (configure FLAGS_d FLAGS_nthreads devices getConfig nstreams)
  = (if bool_decide ("CPU" ∈ devices)
     then {[ KEY_CPU_THROUGHPUT_STREAMS := Text "1" ]} else ∅)
    ∪ (if bool_decide ("GPU" ∈ devices)
       then {[ KEY_GPU_THROUGHPUT_STREAMS := Text "1" ]} else ∅).
Proof.
  apply map_eq. intros k.
  rewrite (co_latency _ _ _ _ _ _
             (configs_ok_run FLAGS_d FLAGS_nthreads devices getConfig nstreams devices)).
  unfold expected_latency.
  destruct (bool_decide ("CPU" ∈ devices)), (bool_decide ("GPU" ∈ devices)), k;
    done.
Qed.

(** * segmentation_demo *)

Lemma digit_of_pretty_N_char x :
  (x < 10)%N → digit_of (pretty_N_char x) = Some (Z.of_N x).
Proof.
  intros Hx.
  assert (x = 0 ∨ x = 1 ∨ x = 2 ∨ x = 3 ∨ x = 4 ∨ x = 5 ∨ x = 6
          ∨ x = 7 ∨ x = 8 ∨ x = 9)%N as Hc by lia.
  repeat destruct Hc as [-> | Hc]; try subst x; reflexivity.
Qed.

Lemma pretty_N_go_app x s r : pretty_N_go x s +:+ r = pretty_N_go x (s +:+ r).
Proof.
  revert s. induction (N.lt_wf_0 x) as [x _ IH]; intros s.
  assert (x = 0 ∨ 0 < x)%N as [-> | Hx] by lia.
  - by rewrite !pretty_N_go_0.
  - rewrite (pretty_N_go_step x s), (pretty_N_go_step x (s +:+ r)) by done.
    rewrite IH by (by apply N.div_lt). done.
Qed.

Lemma pretty_N_go_head x t :
  (0 < x)%N →
  ∃ a t', pretty_N_go x t = String a t'
          ∧ (∃ d, digit_of a = Some d ∧ read_digits d t' = read_digits (Z.of_N x) t)
          ∧ numeral_chars (String a t') = numeral_chars t.
Proof.
  revert t. induction (N.lt_wf_0 x) as [x _ IH]; intros t Hx.
  rewrite pretty_N_go_step by done.
  assert (Hm : (x `mod` 10 < 10)%N) by (by apply N.mod_lt).
  destruct (N.eq_0_gt_0_cases (x `div` 10)) as [Hz | Hp].
  - rewrite Hz, pretty_N_go_0. eexists _, _. split; [done |]. split.
    + eexists. split; [by apply digit_of_pretty_N_char |].
      f_equal. rewrite (N.div_mod x 10) at 2 by done. lia.
    + simpl. rewrite digit_of_pretty_N_char by done. done.
  - destruct (IH (x `div` 10)%N (N.div_lt x 10 Hx eq_refl)
                (String (pretty_N_char (x `mod` 10)) t) Hp)
      as (a & t' & -> & (d & Hd & Hr) & Hn).
    eexists _, _. split; [done |]. split.
    + exists d. split; [done |]. rewrite Hr. simpl.
      rewrite digit_of_pretty_N_char by done. f_equal.
      rewrite (N.div_mod x 10) at 3 by done. lia.
    + rewrite Hn. simpl. rewrite digit_of_pretty_N_char by done. done.
Qed.

Lemma read_digits_stop acc s :
  starts_with_digit s = false → read_digits acc s = acc.
Proof.
  destruct s as [| a s]; [done |]. simpl.
  destruct (digit_of a); [| done]. intros Hd.
  apply bool_decide_eq_false in Hd. by destruct Hd.
Qed.

Lemma is_space_digit a d : digit_of a = Some d → is_space a = false.
Proof.
  unfold digit_of, is_space.
  destruct (Z.leb_spec 48 (Z.of_nat (nat_of_ascii a))) as [H1 | ?]; [| done].
  intros _. apply orb_false_iff. split.
  - apply Nat.eqb_neq. lia.
  - apply andb_false_iff. right. apply Nat.leb_gt. lia.
Qed.

Lemma stoi_digits s v :
  read_number s = Some v → INT_MIN ≤ v ≤ INT_MAX → stoi s = inr v.
Proof.
  unfold stoi. intros Hr Hv. destruct s as [| a s]; [done |].
  simpl in Hr. destruct (digit_of a) as [d |] eqn:Hd; [| done].
  injection Hr as <-.
  simpl. rewrite (is_space_digit a d Hd). simpl.
  rewrite !bool_decide_eq_false_2 by (by intros ->).
  simpl. rewrite Hd.
  destruct (Z.leb_spec INT_MIN (read_digits d s)),
    (Z.leb_spec (read_digits d s) INT_MAX); simpl; first done; lia.
Qed.

Lemma stoi_minus_digits s v :
  read_number s = Some v → INT_MIN ≤ - v ≤ INT_MAX → stoi (String "-" s) = inr (- v).
Proof.
  unfold stoi. intros Hr Hv. simpl. rewrite Hr.
  destruct (Z.leb_spec INT_MIN (- v)), (Z.leb_spec (- v) INT_MAX); simpl; first done; lia.
Qed.

Lemma read_number_pretty_N x rest :
  (0 < x)%N → starts_with_digit rest = false →
  read_number (pretty_N_go x "" +:+ rest) = Some (Z.of_N x).
Proof.
  intros Hx Hrest. rewrite pretty_N_go_app. change ("" +:+ rest) with rest.
  destruct (pretty_N_go_head x rest Hx) as (a & t' & -> & (d & Hd & Hr) & _).
  simpl. rewrite Hd, Hr. by rewrite read_digits_stop.
Qed.

Lemma stoi_pretty (z : Z) rest :
  INT_MIN ≤ z ≤ INT_MAX → starts_with_digit rest = false →
  stoi (pretty z +:+ rest) = inr z.
Proof.
  intros Hz Hrest. destruct z as [| p | p].
  - apply stoi_digits; [| done]. change (pretty 0) with "0"%string. simpl.
    by rewrite read_digits_stop.
  - apply stoi_digits; [| done].
    change (pretty (Z.pos p)) with (pretty_N_go (N.pos p) "").
    by rewrite read_number_pretty_N.
  - change (pretty (Z.neg p)) with ("-" +:+ pretty_N_go (N.pos p) "").
    change (Z.neg p) with (- Z.pos p) in *.
    apply stoi_minus_digits; [| done]. by rewrite read_number_pretty_N.
Qed.

Lemma numeral_chars_pretty (z : Z) : numeral_chars (pretty z) = true.
Proof.
  destruct z as [| p | p]; [done | |].
  - change (pretty (Z.pos p)) with (pretty_N_go (N.pos p) "").
    destruct (pretty_N_go_head (N.pos p) "") as (a & t' & -> & _ & ->); done.
  - change (pretty (Z.neg p)) with ("-" +:+ pretty_N_go (N.pos p) "").
    destruct (pretty_N_go_head (N.pos p) "") as (a & t' & -> & _ & Hn); [done |].
    change (numeral_chars ("-" +:+ String a t'))
      with (numeral_chars (String a t')). by rewrite Hn.
Qed.

Lemma find_x_numeral p r :
  numeral_chars p = true → find_x (p +:+ String "x" r) = Some (String.length p).
Proof.
  unfold find_x. induction p as [| a p IH]; intros Hp.
  - simpl. by destruct r.
  - simpl in Hp. apply andb_true_iff in Hp as [Ha Hp].
    assert (Hx : String.prefix "x" (String a (p +:+ String "x" r)) = false).
    { cbn [String.prefix]. destruct (ascii_dec "x" a) as [<- | ?]; done. }
    change (String a p +:+ String "x" r) with (String a (p +:+ String "x" r)).
    cbn [String.index String.length]. rewrite Hx. by rewrite (IH Hp).
Qed.

Lemma substring_prefix p q : substring 0 (String.length p) (p +:+ q) = p.
Proof. induction p as [| a p IH]; simpl; [by destruct q | by rewrite IH]. Qed.

Lemma substring_all n q : (String.length q ≤ n)%nat → substring 0 n q = q.
Proof.
  revert n. induction q as [| a q IH]; intros n Hn; simpl.
  - by destruct n.
  - destruct n as [| n]; simpl in *; [lia |]. rewrite IH by lia. done.
Qed.

Lemma substring_suffix p a q n :
  (String.length q ≤ n)%nat →
  substring (String.length p + 1) n (p +:+ String a q) = q.
Proof.
  intros Hn. induction p as [| b p IH]; simpl.
  - by apply substring_all.
  - done.
Qed.

Lemma length_append p q :
  String.length (p +:+ q) = (String.length p + String.length q)%nat.
Proof. induction p as [| a p IH]; simpl; [done | by rewrite IH]. Qed.

Lemma append_empty_r s : s +:+ "" = s.
Proof.
  induction s as [| a s IH]; [done |].
  change (String a s +:+ "") with (String a (s +:+ "")). by rewrite IH.
Qed.

(** X12.  A decimal width, an x and a decimal height are read back as
    that width and height, negative values included, and whatever
    follows the height is ignored. *)
Theorem resolution_numerals_are_read (w h : Z) rest :
  INT_MIN ≤ w ≤ INT_MAX → INT_MIN ≤ h ≤ INT_MAX →
  starts_with_digit rest = false →
  requested_resolution (pretty w +:+ "x" +:+ pretty h +:+ rest) = SizeOf w h.
Proof.
  intros Hw Hh Hrest. unfold requested_resolution.
  change ("x" +:+ pretty h +:+ rest) with (String "x" (pretty h +:+ rest)).
  rewrite find_x_numeral by apply numeral_chars_pretty.
  rewrite substring_prefix.
  assert (Hsw : stoi (pretty w) = inr w).
  { rewrite <- (append_empty_r (pretty w)). by apply stoi_pretty. }
  rewrite Hsw.
  rewrite substring_suffix
    by (rewrite (length_append (pretty w)); cbn [String.length]; lia).
  by rewrite stoi_pretty.
Qed.

(** X12, on a negative height followed by text. *)
Lemma resolution_numerals_are_read_witness :
  requested_resolution "1280x-720 px" = SizeOf 1280 (-720).
Proof.
  apply (resolution_numerals_are_read 1280 (-720) " px");
    [unfold INT_MIN, INT_MAX; lia | unfold INT_MIN, INT_MAX; lia | reflexivity].
Defined.

(** X13.  The check of the command line accepts every resolution that
    holds an x, but a text with no number in front of its first x, or
    with a width and no height, has std::stoi throw
    std::invalid_argument once the first frame has been submitted. *)
Theorem accepted_resolution_need_not_parse f :
  FLAGS_h f = false → FLAGS_i f ≠ "" → FLAGS_m f ≠ "" →
  (∀ rest, FLAGS_output_resolution f = "x" +:+ rest →
     ParseAndCheckCommandLine f = Returns true
     ∧ requested_resolution (FLAGS_output_resolution f) = StoiThrows invalid_argument)
  ∧ (∀ w : Z, INT_MIN ≤ w ≤ INT_MAX →
     FLAGS_output_resolution f = pretty w +:+ "x" →
     ParseAndCheckCommandLine f = Returns true
     ∧ requested_resolution (FLAGS_output_resolution f) = StoiThrows invalid_argument).
Proof.
  intros Hh Hi Hm. unfold ParseAndCheckCommandLine. rewrite Hh.
  rewrite !bool_decide_eq_false_2 by done. split.
  - intros rest ->. change ("x" +:+ rest) with ("" +:+ String "x" rest).
    unfold requested_resolution. rewrite find_x_numeral by done.
    split; [by rewrite andb_false_r |]. done.
  - intros w Hw ->. change (pretty w +:+ "x") with (pretty w +:+ String "x" "").
    unfold requested_resolution.
    rewrite find_x_numeral by apply numeral_chars_pretty.
    split; [by rewrite andb_false_r |].
    rewrite substring_prefix.
    assert (Hsw : stoi (pretty w) = inr w).
    { rewrite <- (append_empty_r (pretty w)). by apply stoi_pretty. }
    rewrite Hsw. by rewrite substring_suffix by (simpl; lia).
Qed.

(** X13, on a resolution with no width. *)
Lemma accepted_resolution_need_not_parse_witness :
  ParseAndCheckCommandLine
    {| FLAGS_h := false; FLAGS_i := "a.mp4"; FLAGS_m := "m.xml";
       FLAGS_output_resolution := "x720" |} = Returns true
  ∧ requested_resolution "x720" = StoiThrows invalid_argument.
Proof.
  refine (proj1 (accepted_resolution_need_not_parse
                   {| FLAGS_h := false; FLAGS_i := "a.mp4"; FLAGS_m := "m.xml";
                      FLAGS_output_resolution := "x720" |} _ _ _) "720" _).
  - reflexivity.
  - simpl. discriminate.
  - simpl. discriminate.
  - reflexivity.
Defined.

Lemma init_colors_fresh distr :
  init_colors distr statics0 = {| colors := pascal_table; drawn := 0 |}.
Proof. reflexivity. Qed.

Lemma init_colors_again distr n :
  init_colors distr {| colors := pascal_table; drawn := n |}
  = {| colors := pascal_table; drawn := n |}.
Proof. reflexivity. Qed.

Lemma pascal_table_lookup v :
  mjoin (mat_data pascal_table !! v) = pascal_color v.
Proof.
  do 21 (destruct v as [| v]; [reflexivity |]).
  change (mjoin (replicate 235 None !! v) = (None : option Vec3b)).
  destruct (replicate 235 None !! v) as [o |] eqn:Hv; [| done].
  by apply lookup_replicate in Hv as [-> _].
Qed.

Lemma applyColorMap_calls_initialised distr (inputs : list (list nat)) n :
  applyColorMap_calls distr inputs {| colors := pascal_table; drawn := n |}
  = ((λ input : list nat, pascal_color <$> input) <$> inputs,
     {| colors := pascal_table; drawn := n |}).
Proof.
  induction inputs as [| input inputs IH]; [done |].
  cbn [applyColorMap_calls]. unfold applyColorMap.
  rewrite init_colors_again, IH. cbn [fmap list_fmap]. do 2 f_equal.
  apply list_fmap_ext. intros _ v _. apply pascal_table_lookup.
Qed.

(** X14.  Whatever is drawn and however often the function is called,
    a pixel of class [v] below 21 gets the PASCAL VOC colour of [v] in
    blue-green-red order; the classes from 21 on get rows of the table
    that were never assigned, because the second loop is bounded by the
    number of columns, which is 1; the random generator is never used. *)
Theorem color_table_is_pascal_only distr (inputs : list (list nat)) :
  (applyColorMap_calls distr inputs statics0).1
    = (λ input : list nat, pascal_color <$> input) <$> inputs
  ∧ drawn (applyColorMap_calls distr inputs statics0).2 = 0%nat
  ∧ (∀ v, (21 ≤ v)%nat → pascal_color v = None)
  ∧ (∀ v, (v < 21)%nat → is_Some (pascal_color v)).
Proof.
  split_and!.
  - destruct inputs as [| input inputs]; [done |].
    cbn [applyColorMap_calls]. unfold applyColorMap.
    rewrite (init_colors_fresh distr), applyColorMap_calls_initialised.
    cbn [fst fmap list_fmap]. f_equal.
    apply list_fmap_ext. intros _ v _. apply pascal_table_lookup.
  - destruct inputs as [| input inputs]; [done |].
    cbn [applyColorMap_calls]. unfold applyColorMap.
    by rewrite (init_colors_fresh distr), applyColorMap_calls_initialised.
  - intros v Hv. unfold pascal_color.
    rewrite (lookup_ge_None_2 PASCAL_VOC_COLORS v); [done |]. simpl. lia.
  - intros v Hv. unfold pascal_color. apply fmap_is_Some.
    apply lookup_lt_is_Some_2. simpl. lia.
Qed.
